(** * YUView video handler: frame cache and background-loading coordinator

    A shallow embedding of [source/videoHandler.cpp].  The first part gives
    every member function as a function on the handler state (one call, run
    to completion by the calling thread).  The second part cuts
    [cacheFrame] and [drawFrame] into their atomic steps and interleaves
    any number of threads, for the properties that are about waiting. *)

From stdpp Require Import gmap list.
From Stdlib Require Import ZArith QArith Qround Lia.

Local Open Scope Z_scope.

(* A lemma depends on the section variables its statement names. *)
Set Default Proof Using "Type".

(** ** Qt values used by the handler *)

(** Threads are known by a number; it only serves to say who holds a mutex. *)
Abbreviation tid := nat.

(** A [QImage] is either the null image [QImage()] or a raster. *)
Inductive QImage : Type :=
| QImage_null
| QImage_raster (width height : Z) (bits : list Z).

Definition isNull (img : QImage) : bool :=
  match img with QImage_null => true | QImage_raster _ _ _ => false end.

(** The image that [loadFrameForCaching] hands back for frame [i] when the
    producer left [(img, idx)] in the request buffer. *)
Definition decoded (i : Z) (img : QImage) (idx : Z) : QImage :=
  if idx =? i then img else QImage_null.

(** A non-recursive [QMutex]: unlocked, or locked by a thread. *)
Abbreviation QMutex := (option tid).

(** [QBasicTimer]: the id is 0 while the timer is not running. *)
Record QBasicTimer : Type := mkTimer { timerId : Z }.

Definition isActive (t : QBasicTimer) : bool := negb (timerId t =? 0).

Record QSize : Type := mkSize { size_width : Z; size_height : Z }.

Record QRect : Type := mkRect { x1 : Z; y1 : Z; x2 : Z; y2 : Z }.

(** [qRound] on a rational stand-in for [double]. *)
Definition qRound (d : Q) : Z := Qfloor (d + (1 # 2))%Q.

(** [QSize operator*(const QSize &, qreal)]. *)
Definition QSize_scale (s : QSize) (c : Q) : QSize :=
  mkSize (qRound (inject_Z (size_width s) * c)%Q)
         (qRound (inject_Z (size_height s) * c)%Q).

Definition QRect_default : QRect := mkRect 0 0 (-1) (-1).

Definition QRect_setSize (s : QSize) (r : QRect) : QRect :=
  mkRect (x1 r) (y1 r) (x1 r + size_width s - 1) (y1 r + size_height s - 1).

Definition QRect_moveCenter (px py : Z) (r : QRect) : QRect :=
  let w := x2 r - x1 r in
  let h := y2 r - y1 r in
  let nx := px - Z.quot w 2 in
  let ny := py - Z.quot h 2 in
  mkRect nx ny (nx + w) (ny + h).

(** ** What the handler does to its surroundings *)

Inductive MutexName : Type :=
| imageCacheAccess
| cachingFramesMuticesAccess
| requestDataMutex
| frameMutex (frameIdx : Z).

(** The signals of the class.  The header with the name of the second
    argument of [signalHandlerChanged] is not part of the source file. *)
Inductive Signal : Type :=
| signalUpdateFrameLimits
| signalHandlerChanged (redrawNeeded second : bool)
| signalRequestFrame (frameIdx : Z) (caching : bool)
| cachingTimerStart.

(** What can be observed of a call: signals, mutex operations, calls of
    the painter and of the timer.  In the first part a call gets every
    mutex of the class it asks for, and the [QMutexLocker]s only show in
    the trace; the second part keeps track of who holds which mutex. *)
Inductive Action : Type :=
| Emit (s : Signal)
| Lock (m : MutexName)
| Unlock (m : MutexName)
| DrawImage (r : QRect) (img : QImage)
| DrawPixelValues (frameIdx : Z) (r : QRect) (zoomFactor : Q)
| TimerStart (msec : Z) (id : Z)
| TimerStop (id : Z).

(** Whether two names stand for the same mutex. *)
Definition same_mutex (a b : MutexName) : bool :=
  match a, b with
  | imageCacheAccess, imageCacheAccess => true
  | cachingFramesMuticesAccess, cachingFramesMuticesAccess => true
  | requestDataMutex, requestDataMutex => true
  | frameMutex i, frameMutex j => i =? j
  | _, _ => false
  end.

Global Instance Signal_eq_dec : EqDecision Signal.
Proof. solve_decision. Defined.

Global Instance MutexName_eq_dec : EqDecision MutexName.
Proof. solve_decision. Defined.

Definition is_emit (s : Signal) (a : Action) : bool :=
  match a with Emit s' => bool_decide (s' = s) | _ => false end.

Definition is_request (a : Action) : bool :=
  match a with Emit (signalRequestFrame _ _) => true | _ => false end.

Definition is_handler_changed (a : Action) : bool :=
  match a with Emit (signalHandlerChanged _ _) => true | _ => false end.

Definition is_timer_start (a : Action) : bool :=
  match a with TimerStart _ _ => true | _ => false end.

Definition is_mutex_action (a : Action) : bool :=
  match a with Lock _ | Unlock _ => true | _ => false end.

Definition count (f : Action -> bool) (l : list Action) : nat :=
  length (filter (fun a => f a = true) l).

(** ** The handler *)

Section Handler.

(** The frame producer is whoever is connected to [signalRequestFrame].
    It has a state of its own and may write the two public members
    [requestedFrame] and [requestedFrame_idx]. *)
Context {P : Type}.
Variable requestFrame : Z -> bool -> P -> QImage -> Z -> P * QImage * Z.

Record videoHandler : Type := mkHandler {
  currentImage : QImage;
  currentImageIdx : Z;
  currentImage_frameIndex : Z;
  loadingInBackground : bool;
  frameSize : QSize;
  imageCache : gmap Z QImage;
  cachingFramesMutices : gmap Z QMutex;
  requestedFrame : QImage;
  requestedFrame_idx : Z;
  cachingTimer : QBasicTimer;
  (* the surroundings: the producer, the timer ids the event dispatcher
     hands out, and everything emitted, locked or painted so far *)
  producer : P;
  nextTimerId : positive;
  trace : list Action
}.

Definition set_currentImage (v : QImage) (h : videoHandler) : videoHandler :=
  let '(mkHandler _ b c d e f g i j k l m n) := h in
  mkHandler v b c d e f g i j k l m n.

Definition set_currentImageIdx (v : Z) (h : videoHandler) : videoHandler :=
  let '(mkHandler a _ c d e f g i j k l m n) := h in
  mkHandler a v c d e f g i j k l m n.

Definition set_currentImage_frameIndex (v : Z) (h : videoHandler) : videoHandler :=
  let '(mkHandler a b _ d e f g i j k l m n) := h in
  mkHandler a b v d e f g i j k l m n.

Definition set_loadingInBackground (v : bool) (h : videoHandler) : videoHandler :=
  let '(mkHandler a b c _ e f g i j k l m n) := h in
  mkHandler a b c v e f g i j k l m n.

Definition set_imageCache (v : gmap Z QImage) (h : videoHandler) : videoHandler :=
  let '(mkHandler a b c d e _ g i j k l m n) := h in
  mkHandler a b c d e v g i j k l m n.

Definition set_cachingFramesMutices (v : gmap Z QMutex) (h : videoHandler) : videoHandler :=
  let '(mkHandler a b c d e f _ i j k l m n) := h in
  mkHandler a b c d e f v i j k l m n.

(** What the producer may write: the request buffer and its own state. *)
Definition set_requested (img : QImage) (idx : Z) (p : P) (h : videoHandler) : videoHandler :=
  let '(mkHandler a b c d e f g _ _ k _ m n) := h in
  mkHandler a b c d e f g img idx k p m n.

Definition set_requestedFrame_idx (v : Z) (h : videoHandler) : videoHandler :=
  let '(mkHandler a b c d e f g i _ k l m n) := h in
  mkHandler a b c d e f g i v k l m n.

Definition set_timer (t : QBasicTimer) (next : positive) (h : videoHandler) : videoHandler :=
  let '(mkHandler a b c d e f g i j _ l _ n) := h in
  mkHandler a b c d e f g i j t l next n.

(** Append one action to the trace. *)
Definition log (x : Action) (h : videoHandler) : videoHandler :=
  let '(mkHandler a b c d e f g i j k l m n) := h in
  mkHandler a b c d e f g i j k l m (n ++ [x]).

(** The calling thread, and the two slots of the base class [frameHandler]
    that the handler forwards to; their code is not part of this file. *)
Variable me : tid.
Variable frameHandler_slotVideoControlChanged : videoHandler -> videoHandler.
Variable frameHandler_timerEvent : Z -> videoHandler -> videoHandler.

Definition contains {A} (m : gmap Z A) (k : Z) : bool :=
  match m !! k with Some _ => true | None => false end.

(** *** Signals *)

Definition emit (s : Signal) (h : videoHandler) : videoHandler := log (Emit s) h.

(** [emit signalRequestFrame(frameIdx, caching)]: the connected producer
    runs before the [emit] returns; the handler reads its answer from
    [requestedFrame_idx] afterwards. *)
Definition producerReturns (frameIdx : Z) (caching : bool)
    (h : videoHandler) : videoHandler :=
  let '(p, img, idx) :=
    requestFrame frameIdx caching (producer h) (requestedFrame h) (requestedFrame_idx h) in
  set_requested img idx p h.

Definition emit_signalRequestFrame (frameIdx : Z) (caching : bool)
    (h : videoHandler) : videoHandler :=
  let h := log (Emit (signalRequestFrame frameIdx caching)) h in
  producerReturns frameIdx caching h.

(** [QBasicTimer::stop] and [QBasicTimer::start(msec, this)]. *)
Definition QBasicTimer_stop (h : videoHandler) : videoHandler :=
  if isActive (cachingTimer h)
  then log (TimerStop (timerId (cachingTimer h)))
           (set_timer (mkTimer 0) (nextTimerId h) h)
  else h.

Definition QBasicTimer_start (msec : Z) (h : videoHandler) : videoHandler :=
  let h := QBasicTimer_stop h in
  let id := Z.pos (nextTimerId h) in
  log (TimerStart msec id) (set_timer (mkTimer id) (Pos.succ (nextTimerId h)) h).

(** The lambda connected to [cachingTimerStart] in the constructor. *)
Definition on_cachingTimerStart (h : videoHandler) : videoHandler :=
  if negb (isActive (cachingTimer h)) then QBasicTimer_start 1000 h else h.

(** [emit cachingTimerStart()]: the slot belongs to the handler itself
    and runs once for every emission; the model runs it on the spot. *)
Definition emit_cachingTimerStart (h : videoHandler) : videoHandler :=
  on_cachingTimerStart (log (Emit cachingTimerStart) h).

(** [videoHandler::videoHandler()]; the members the constructor does not
    write are arguments. *)
Definition videoHandler_new (size : QSize) (reqIdx : Z) (p : P)
    (next : positive) : videoHandler :=
  mkHandler QImage_null (-1) (-1) false size ∅ ∅ QImage_null reqIdx
            (mkTimer 0) p next [].

(** *** The frame cache *)

Definition isInCache (idx : Z) (h : videoHandler) : bool * videoHandler :=
  let h := log (Lock imageCacheAccess) h in
  (contains (imageCache h) idx, log (Unlock imageCacheAccess) h).

Definition getCachedFrames (h : videoHandler) : list Z * videoHandler :=
  let h := log (Lock imageCacheAccess) h in
  ((map_to_list (imageCache h)).*1, log (Unlock imageCacheAccess) h).

Definition getNrFramesCached (h : videoHandler) : Z * videoHandler :=
  let h := log (Lock imageCacheAccess) h in
  (Z.of_nat (size (imageCache h)), log (Unlock imageCacheAccess) h).

Definition clearCache (h : videoHandler) : videoHandler :=
  let h := log (Lock imageCacheAccess) h in
  let h := set_imageCache ∅ h in
  log (Unlock imageCacheAccess) h.

Definition removefromCache (idx : Z) (h : videoHandler) : videoHandler :=
  let h := log (Lock imageCacheAccess) h in
  let h := if idx =? -1
           then set_imageCache ∅ h
           else set_imageCache (delete idx (imageCache h)) h in
  let h := log (Unlock imageCacheAccess) h in
  emit_cachingTimerStart h.

Definition removeFrameFromCache (frameIdx : Z) (h : videoHandler) : videoHandler := h.

Definition makeCachedFrameCurrent (frameIdx : Z) (h : videoHandler)
    : bool * videoHandler :=
  let h := log (Lock imageCacheAccess) h in
  match imageCache h !! frameIdx with
  | Some img =>
      let h := set_currentImage img h in
      let h := set_currentImageIdx frameIdx h in
      (true, log (Unlock imageCacheAccess) h)
  | None => (false, log (Unlock imageCacheAccess) h)
  end.

(** *** Invalidation *)

Definition slotVideoControlChanged (h : videoHandler) : videoHandler :=
  let h := frameHandler_slotVideoControlChanged h in
  let h := emit signalUpdateFrameLimits h in
  let h := set_currentImageIdx (-1) h in
  let h := clearCache h in
  emit (signalHandlerChanged true true) h.

Definition invalidateAllBuffers (h : videoHandler) : videoHandler :=
  let h := emit signalUpdateFrameLimits h in
  let h := set_currentImageIdx (-1) h in
  let h := set_currentImage_frameIndex (-1) h in
  let h := set_currentImage QImage_null h in
  let h := set_requestedFrame_idx (-1) h in
  clearCache h.

(** *** The change notifier *)

Definition timerEvent (eventTimerId : Z) (h : videoHandler) : videoHandler :=
  if negb (eventTimerId =? timerId (cachingTimer h))
  then frameHandler_timerEvent eventTimerId h
  else
    let h := QBasicTimer_stop h in
    emit (signalHandlerChanged false false) h.

(** *** Loading *)

(** The two assignments that end [loadFrame]. *)
Definition setRequestedAsCurrent (frameIndex : Z) (h : videoHandler) : videoHandler :=
  let h := set_currentImage (requestedFrame h) h in
  set_currentImageIdx frameIndex h.

Definition loadFrame (frameIndex : Z) (h : videoHandler) : videoHandler :=
  if negb (requestedFrame_idx h =? frameIndex) then
    let h := log (Lock requestDataMutex) h in
    let h := emit_signalRequestFrame frameIndex false h in
    if negb (requestedFrame_idx h =? frameIndex)
    then log (Unlock requestDataMutex) h
    else setRequestedAsCurrent frameIndex (log (Unlock requestDataMutex) h)
  else setRequestedAsCurrent frameIndex h.

Definition loadFrameForCaching (frameIndex : Z) (frameToCache : QImage)
    (h : videoHandler) : QImage * videoHandler :=
  let h := log (Lock requestDataMutex) h in
  let h := emit_signalRequestFrame frameIndex true h in
  if negb (requestedFrame_idx h =? frameIndex)
  then (frameToCache, log (Unlock requestDataMutex) h)
  else (requestedFrame h, log (Unlock requestDataMutex) h).

(** The pieces of [cacheFrame], in source order. *)
Definition registerFrameMutex (t : tid) (frameIdx : Z) (h : videoHandler) : videoHandler :=
  let h := log (Lock (frameMutex frameIdx)) h in
  set_cachingFramesMutices (<[frameIdx := Some t]> (cachingFramesMutices h)) h.

Definition insertIntoCache (frameIdx : Z) (cacheImage : QImage)
    (h : videoHandler) : videoHandler :=
  let h := log (Lock imageCacheAccess) h in
  let h := set_imageCache (<[frameIdx := cacheImage]> (imageCache h)) h in
  log (Unlock imageCacheAccess) h.

Definition unlockFrameMutex (frameIdx : Z) (h : videoHandler) : videoHandler :=
  let h := set_cachingFramesMutices (<[frameIdx := None]> (cachingFramesMutices h)) h in
  log (Unlock (frameMutex frameIdx)) h.

Definition takeFrameMutex (frameIdx : Z) (h : videoHandler) : videoHandler :=
  set_cachingFramesMutices (delete frameIdx (cachingFramesMutices h)) h.

Definition cacheFrame (frameIdx : Z) (h : videoHandler) : videoHandler :=
  let '(cached, h) := isInCache frameIdx h in
  if cached then h else
  let h := log (Lock cachingFramesMuticesAccess) h in
  if contains (cachingFramesMutices h) frameIdx
  then log (Unlock cachingFramesMuticesAccess) h
  else
    let h := registerFrameMutex me frameIdx h in
    let h := log (Unlock cachingFramesMuticesAccess) h in
    let '(cacheImage, h) := loadFrameForCaching frameIdx QImage_null h in
    let h := if negb (isNull cacheImage)
             then insertIntoCache frameIdx cacheImage h else h in
    let h := unlockFrameMutex frameIdx h in
    let h := log (Lock cachingFramesMuticesAccess) h in
    let h := takeFrameMutex frameIdx h in
    let h := log (Unlock cachingFramesMuticesAccess) h in
    emit_cachingTimerStart h.

(** *** Drawing *)

Definition videoRect (size : QSize) (zoomFactor : Q) : QRect :=
  QRect_moveCenter 0 0 (QRect_setSize (QSize_scale size zoomFactor) QRect_default).

(** Modelled from the spec: [drawPixelValues] is a member of the base class
    [frameHandler], whose code is missing here; the spec describes it as
    the external pixel-value overlay drawn on the canvas, so the call is
    recorded as one more painter action. *)
Definition drawPixelValues (frameIdx : Z) (r : QRect) (zoomFactor : Q)
    (h : videoHandler) : videoHandler :=
  log (DrawPixelValues frameIdx r zoomFactor) h.

(** Lines 98 to 113: the part of [drawFrame] after the frame was updated. *)
Definition drawCurrent (frameIdx : Z) (zoomFactor : Q) (h : videoHandler)
    : videoHandler :=
  let h := set_loadingInBackground (negb (currentImageIdx h =? frameIdx)) h in
  let r := videoRect (frameSize h) zoomFactor in
  let h := log (DrawImage r (currentImage h)) h in
  if Qle_bool 64 zoomFactor then drawPixelValues frameIdx r zoomFactor h else h.

(** Waiting for the caching thread: lock and unlock its mutex.  A caller
    that finds the mutex locked does not return while nobody else runs:
    the result is [None]. *)
Definition waitForFrameMutex (frameIdx : Z) (h : videoHandler) : option videoHandler :=
  match cachingFramesMutices h !! frameIdx with
  | Some None =>
      let h := log (Lock (frameMutex frameIdx)) h in
      Some (log (Unlock (frameMutex frameIdx)) h)
  | _ => None
  end.

Definition drawFrame (frameIdx : Z) (zoomFactor : Q) (h : videoHandler)
    : option videoHandler :=
  h ← (if negb (frameIdx =? currentImageIdx h) then
         let '(hit, h) := makeCachedFrameCurrent frameIdx h in
         if hit then Some h else
         let h := log (Lock cachingFramesMuticesAccess) h in
         if contains (cachingFramesMutices h) frameIdx then
           h ← waitForFrameMutex frameIdx h;
           let h := log (Unlock cachingFramesMuticesAccess) h in
           Some (makeCachedFrameCurrent frameIdx h).2
         else
           let h := log (Unlock cachingFramesMuticesAccess) h in
           Some (loadFrame frameIdx h)
       else Some h);
  Some (drawCurrent frameIdx zoomFactor h).

(** A run of calls made one after the other. *)
Definition cacheFrames (l : list Z) (h : videoHandler) : videoHandler :=
  foldl (fun h i => cacheFrame i h) h l.

(** What a call added to the trace. *)
Definition since (h h' : videoHandler) : list Action :=
  drop (length (trace h)) (trace h').

(** ** Threads

    The renderer and the caching workers run the code above at the same
    time.  Each thread makes one call; its program counter says which
    statement comes next (the numbers are source lines).  A step is one
    statement that touches shared data, or one mutex operation; a thread
    that finds a mutex locked has no step. *)

Inductive pc_cache : Type :=
| C_isInCache_lock   (* 162, 220 *)
| C_isInCache        (* 221 *)
| C_registry_lock    (* 170 *)
| C_registry_check   (* 171 to 176 *)
| C_register         (* 177 to 179 *)
| C_registry_unlock  (* 180 *)
| C_load_lock        (* 184, 285 *)
| C_request          (* 288, the signal goes out *)
| C_decoding         (* 288 to 295, the producer returns *)
| C_insert_lock      (* 187 to 190 *)
| C_insert           (* 191, 192 *)
| C_frame_unlock     (* 195 *)
| C_relock           (* 196 *)
| C_take             (* 197 to 199 *)
| C_emit             (* 203 *)
| C_done.

Inductive pc_draw : Type :=
| D_start            (* 70 *)
| D_cached_lock      (* 74, 141 *)
| D_cached           (* 142 to 148 *)
| D_registry_lock    (* 77 *)
| D_registry_check   (* 78, 92 *)
| D_wait_lock        (* 83 *)
| D_wait_unlock      (* 84 *)
| D_registry_unlock  (* 85 *)
| D_recached_lock    (* 88, 141 *)
| D_recached         (* 142 to 148 *)
| D_load             (* 93, 263 *)
| D_load_lock        (* 266 *)
| D_request          (* 269, the signal goes out *)
| D_decoding         (* 269 to 274, the producer returns *)
| D_load_set         (* 277, 278 *)
| D_paint            (* 99 to 113 *)
| D_done.

Inductive Thread : Type :=
| Caching (frameIdx : Z) (pc : pc_cache) (cacheImage : QImage)
| Drawing (frameIdx : Z) (zoomFactor : Q) (pc : pc_draw).

Record System : Type := mkSystem {
  handler : videoHandler;
  (* who holds [imageCacheAccess], [cachingFramesMuticesAccess] and
     [requestDataMutex]; the frame mutexes live in [cachingFramesMutices] *)
  owner : MutexName -> QMutex;
  threads : list Thread
}.

Definition with_handler (f : videoHandler -> videoHandler) (s : System) : System :=
  mkSystem (f (handler s)) (owner s) (threads s).

Definition mutexState (m : MutexName) (s : System) : option QMutex :=
  match m with
  | frameMutex i => cachingFramesMutices (handler s) !! i
  | _ => Some (owner s m)
  end.

Definition setMutex (m : MutexName) (v : QMutex) (s : System) : System :=
  match m with
  | frameMutex i =>
      with_handler
        (fun h => set_cachingFramesMutices (<[i := v]> (cachingFramesMutices h)) h) s
  | _ =>
      mkSystem (handler s)
               (fun m' => if same_mutex m' m then v else owner s m')
               (threads s)
  end.

(** [QMutex::lock] by thread [t]: possible only on an unlocked mutex. *)
Definition acquire (t : tid) (m : MutexName) (s : System) : option System :=
  match mutexState m s with
  | Some None => Some (with_handler (log (Lock m)) (setMutex m (Some t) s))
  | _ => None
  end.

Definition release (m : MutexName) (s : System) : System :=
  with_handler (log (Unlock m)) (setMutex m None s).

(** The body of [makeCachedFrameCurrent] once the mutex is held. *)
Definition promoteCached (frameIdx : Z) (h : videoHandler) : bool * videoHandler :=
  match imageCache h !! frameIdx with
  | Some img => (true, set_currentImageIdx frameIdx (set_currentImage img h))
  | None => (false, h)
  end.

Definition cache_step (t : tid) (frameIdx : Z) (pc : pc_cache) (cacheImage : QImage)
    (s : System) : option (Thread * System) :=
  let at_pc pc' := Caching frameIdx pc' cacheImage in
  match pc with
  | C_isInCache_lock =>
      s ← acquire t imageCacheAccess s; Some (at_pc C_isInCache, s)
  | C_isInCache =>
      let cached := contains (imageCache (handler s)) frameIdx in
      Some (at_pc (if cached then C_done else C_registry_lock),
            release imageCacheAccess s)
  | C_registry_lock =>
      s ← acquire t cachingFramesMuticesAccess s; Some (at_pc C_registry_check, s)
  | C_registry_check =>
      if contains (cachingFramesMutices (handler s)) frameIdx
      then Some (at_pc C_done, release cachingFramesMuticesAccess s)
      else Some (at_pc C_register, s)
  | C_register =>
      Some (at_pc C_registry_unlock, with_handler (registerFrameMutex t frameIdx) s)
  | C_registry_unlock =>
      Some (at_pc C_load_lock, release cachingFramesMuticesAccess s)
  | C_load_lock =>
      s ← acquire t requestDataMutex s; Some (at_pc C_request, s)
  | C_request =>
      Some (at_pc C_decoding,
            with_handler (log (Emit (signalRequestFrame frameIdx true))) s)
  | C_decoding =>
      let s := with_handler (producerReturns frameIdx true) s in
      let img := if negb (requestedFrame_idx (handler s) =? frameIdx)
                 then cacheImage else requestedFrame (handler s) in
      Some (Caching frameIdx (if negb (isNull img) then C_insert_lock else C_frame_unlock) img,
            release requestDataMutex s)
  | C_insert_lock =>
      s ← acquire t imageCacheAccess s; Some (at_pc C_insert, s)
  | C_insert =>
      let s := with_handler
                 (fun h => set_imageCache (<[frameIdx := cacheImage]> (imageCache h)) h) s in
      Some (at_pc C_frame_unlock, release imageCacheAccess s)
  | C_frame_unlock =>
      Some (at_pc C_relock, with_handler (unlockFrameMutex frameIdx) s)
  | C_relock =>
      s ← acquire t cachingFramesMuticesAccess s; Some (at_pc C_take, s)
  | C_take =>
      let s := with_handler (takeFrameMutex frameIdx) s in
      Some (at_pc C_emit, release cachingFramesMuticesAccess s)
  | C_emit =>
      Some (at_pc C_done, with_handler emit_cachingTimerStart s)
  | C_done => None
  end.

Definition draw_step (t : tid) (frameIdx : Z) (zoomFactor : Q) (pc : pc_draw)
    (s : System) : option (Thread * System) :=
  let at_pc pc' := Drawing frameIdx zoomFactor pc' in
  match pc with
  | D_start =>
      Some (at_pc (if negb (frameIdx =? currentImageIdx (handler s))
                   then D_cached_lock else D_paint), s)
  | D_cached_lock =>
      s ← acquire t imageCacheAccess s; Some (at_pc D_cached, s)
  | D_cached =>
      let '(hit, h) := promoteCached frameIdx (handler s) in
      Some (at_pc (if hit then D_paint else D_registry_lock),
            release imageCacheAccess (with_handler (fun _ => h) s))
  | D_registry_lock =>
      s ← acquire t cachingFramesMuticesAccess s; Some (at_pc D_registry_check, s)
  | D_registry_check =>
      if contains (cachingFramesMutices (handler s)) frameIdx
      then Some (at_pc D_wait_lock, s)
      else Some (at_pc D_load, release cachingFramesMuticesAccess s)
  | D_wait_lock =>
      s ← acquire t (frameMutex frameIdx) s; Some (at_pc D_wait_unlock, s)
  | D_wait_unlock =>
      Some (at_pc D_registry_unlock, release (frameMutex frameIdx) s)
  | D_registry_unlock =>
      Some (at_pc D_recached_lock, release cachingFramesMuticesAccess s)
  | D_recached_lock =>
      s ← acquire t imageCacheAccess s; Some (at_pc D_recached, s)
  | D_recached =>
      let '(_, h) := promoteCached frameIdx (handler s) in
      Some (at_pc D_paint, release imageCacheAccess (with_handler (fun _ => h) s))
  | D_load =>
      Some (at_pc (if negb (requestedFrame_idx (handler s) =? frameIdx)
                   then D_load_lock else D_load_set), s)
  | D_load_lock =>
      s ← acquire t requestDataMutex s; Some (at_pc D_request, s)
  | D_request =>
      Some (at_pc D_decoding,
            with_handler (log (Emit (signalRequestFrame frameIdx false))) s)
  | D_decoding =>
      let s := with_handler (producerReturns frameIdx false) s in
      Some (at_pc (if negb (requestedFrame_idx (handler s) =? frameIdx)
                   then D_paint else D_load_set),
            release requestDataMutex s)
  | D_load_set =>
      Some (at_pc D_paint, with_handler (setRequestedAsCurrent frameIdx) s)
  | D_paint =>
      Some (at_pc D_done, with_handler (drawCurrent frameIdx zoomFactor) s)
  | D_done => None
  end.

Definition thread_step (t : tid) (th : Thread) (s : System) : option (Thread * System) :=
  match th with
  | Caching i pc img => cache_step t i pc img s
  | Drawing i z pc => draw_step t i z pc s
  end.

(** Thread [t] makes its next step. *)
Definition step (t : tid) (s : System) : option System :=
  th ← threads s !! t;
  '(th', s') ← thread_step t th s;
  Some (mkSystem (handler s') (owner s') (<[t := th']> (threads s'))).

(** A schedule names the thread to run at each turn. *)
Fixpoint run (sched : list tid) (s : System) : option System :=
  match sched with
  | [] => Some s
  | t :: sched => s ← step t s; run sched s
  end.

Inductive reachable (s0 : System) : System -> Prop :=
| reachable_init : reachable s0 s0
| reachable_step s t s' : reachable s0 s -> step t s = Some s' -> reachable s0 s'.

(** Before anybody runs: no mutex is held, no frame is being cached and
    every thread is at the first statement of its call. *)
Definition fresh (th : Thread) : Prop :=
  match th with
  | Caching _ pc img => pc = C_isInCache_lock /\ img = QImage_null
  | Drawing _ _ pc => pc = D_start
  end.

Definition quiescent (s : System) : Prop :=
  cachingFramesMutices (handler s) = ∅ /\
  (forall m, owner s m = None) /\
  Forall fresh (threads s).

Definition start (h : videoHandler) (ths : list Thread) : System :=
  mkSystem h (fun _ => None) ths.


Definition waiting_done (th : Thread) : option Z :=
  match th with
  | Drawing i _ (D_wait_unlock | D_registry_unlock | D_recached_lock | D_recached) => Some i
  | _ => None
  end.


(** The mutexes a thread holds at its program counter. *)
Definition holds (m : MutexName) (th : Thread) : bool :=
  match m, th with
  | imageCacheAccess, Caching _ (C_isInCache | C_insert) _ => true
  | imageCacheAccess, Drawing _ _ (D_cached | D_recached) => true
  | cachingFramesMuticesAccess,
    Caching _ (C_registry_check | C_register | C_registry_unlock | C_take) _ => true
  | cachingFramesMuticesAccess,
    Drawing _ _ (D_registry_check | D_wait_lock | D_wait_unlock
                 | D_registry_unlock) => true
  | requestDataMutex, Caching _ (C_request | C_decoding) _ => true
  | requestDataMutex, Drawing _ _ (D_request | D_decoding) => true
  | _, _ => false
  end.

(** The frame whose mutex a thread holds: the worker from line 178 to
    line 195, the renderer between lines 83 and 84. *)
Definition latched (th : Thread) : option Z :=
  match th with
  | Caching i (C_registry_unlock | C_load_lock | C_request | C_decoding
               | C_insert_lock | C_insert | C_frame_unlock) _ => Some i
  | Drawing i _ D_wait_unlock => Some i
  | _ => None
  end.

(** A worker between line 179 and line 197 has its frame in the registry. *)
Definition registered (th : Thread) : option Z :=
  match th with
  | Caching i (C_registry_unlock | C_load_lock | C_request | C_decoding
               | C_insert_lock | C_insert | C_frame_unlock | C_relock | C_take) _ =>
      Some i
  | _ => None
  end.

(** A worker that found its frame missing from the registry (line 171)
    and is about to add it. *)
Definition registering (th : Thread) : option Z :=
  match th with Caching i C_register _ => Some i | _ => None end.

(** Up to the producer's return the local [cacheImage] is still null. *)
Definition undecoded (th : Thread) : bool :=
  match th with
  | Caching _ (C_isInCache_lock | C_isInCache | C_registry_lock | C_registry_check
               | C_register | C_registry_unlock | C_load_lock | C_request
               | C_decoding) _ => true
  | _ => false
  end.

Definition local_image (th : Thread) : QImage :=
  match th with Caching _ _ img => img | Drawing _ _ _ => QImage_null end.

(** A worker past line 192 with a decoded image. *)
Definition inserted (th : Thread) : option Z :=
  match th with
  | Caching i (C_frame_unlock | C_relock | C_take | C_emit | C_done) img =>
      if isNull img then None else Some i
  | _ => None
  end.

(** A worker past the producer's return and not yet out of the registry. *)
Definition unregistering (th : Thread) : option Z :=
  match th with
  | Caching i (C_insert_lock | C_insert | C_frame_unlock | C_relock | C_take) _ => Some i
  | _ => None
  end.

(** What holds of every state the threads can reach. *)
Record invariant (s : System) : Prop := mkInvariant {
  inv_mutex : forall m t th,
    threads s !! t = Some th -> holds m th = true -> owner s m = Some t;
  inv_latched : forall t th i,
    threads s !! t = Some th -> latched th = Some i ->
    cachingFramesMutices (handler s) !! i = Some (Some t);
  inv_registered : forall t th i,
    threads s !! t = Some th -> registered th = Some i ->
    is_Some (cachingFramesMutices (handler s) !! i);
  inv_registering : forall t th i,
    threads s !! t = Some th -> registering th = Some i ->
    cachingFramesMutices (handler s) !! i = None;
  inv_unique : forall t1 t2 th1 th2 i,
    threads s !! t1 = Some th1 -> threads s !! t2 = Some th2 ->
    registered th1 = Some i -> registered th2 = Some i -> t1 = t2;
  inv_entry : forall i,
    is_Some (cachingFramesMutices (handler s) !! i) ->
    exists t th, threads s !! t = Some th /\ registered th = Some i;
  inv_undecoded : forall t th,
    threads s !! t = Some th -> undecoded th = true ->
    local_image th = QImage_null;
  inv_inserted : forall t th i,
    threads s !! t = Some th -> inserted th = Some i ->
    is_Some (imageCache (handler s) !! i)
}.

(** ** The image a worker inserts *)

(** A worker that has a decoded image and is about to insert it (lines
    187 to 191). *)
Definition pending (th : Thread) : bool :=
  match th with
  | Caching _ (C_insert_lock | C_insert) _ => true
  | _ => false
  end.

(** A worker between its insertion and the removal of its frame mutex
    from the registry (lines 195 to 197). *)
Definition kept (th : Thread) : option Z :=
  match th with
  | Caching i (C_frame_unlock | C_relock | C_take) _ => Some i
  | _ => None
  end.

(** What the cache holds for a worker's frame while the worker is still
    in the registry: the very image the worker decoded. *)
Record invariant_image (s : System) : Prop := mkInvariantImage {
  img_pending : forall t th,
    threads s !! t = Some th -> pending th = true ->
    isNull (local_image th) = false;
  img_kept : forall t th i,
    threads s !! t = Some th -> kept th = Some i ->
    isNull (local_image th) = false ->
    imageCache (handler s) !! i = Some (local_image th)
}.

(** [img'] is the image [img] that worker [w] decoded for frame [i], or
    the image that another worker for frame [i] has decoded and
    inserted. *)
Definition decoded_by (w : tid) (i : Z) (img : QImage) (s : System)
    (img' : QImage) : Prop :=
  img' = img \/
  exists w' th',
    w' <> w /\ threads s !! w' = Some th' /\
    inserted th' = Some i /\ local_image th' = img'.

(** Frame [i] is in the cache, with such an image. *)
Definition inserted_since (w : tid) (i : Z) (img : QImage) (s : System) : Prop :=
  exists img',
    imageCache (handler s) !! i = Some img' /\ decoded_by w i img s img'.

(** ** Progress *)

(** The call of the thread has returned. *)
Definition finished (th : Thread) : bool :=
  match th with
  | Caching _ C_done _ | Drawing _ _ D_done => true
  | _ => false
  end.

(** The mutex the next statement of a thread locks, if it locks one. *)
Definition wants (th : Thread) : option MutexName :=
  match th with
  | Caching _ (C_isInCache_lock | C_insert_lock) _ => Some imageCacheAccess
  | Caching _ (C_registry_lock | C_relock) _ => Some cachingFramesMuticesAccess
  | Caching _ C_load_lock _ => Some requestDataMutex
  | Drawing _ _ (D_cached_lock | D_recached_lock) => Some imageCacheAccess
  | Drawing _ _ D_registry_lock => Some cachingFramesMuticesAccess
  | Drawing i _ D_wait_lock => Some (frameMutex i)
  | Drawing _ _ D_load_lock => Some requestDataMutex
  | _ => None
  end.

(** The statements a thread has before it on its longest way to the end
    of the call. *)
Definition remaining (th : Thread) : nat :=
  match th with
  | Caching _ pc _ =>
      match pc with
      | C_isInCache_lock => 15 | C_isInCache => 14 | C_registry_lock => 13
      | C_registry_check => 12 | C_register => 11 | C_registry_unlock => 10
      | C_load_lock => 9 | C_request => 8 | C_decoding => 7
      | C_insert_lock => 6 | C_insert => 5 | C_frame_unlock => 4
      | C_relock => 3 | C_take => 2 | C_emit => 1 | C_done => 0
      end
  | Drawing _ _ pc =>
      match pc with
      | D_start => 11 | D_cached_lock => 10 | D_cached => 9
      | D_registry_lock => 8 | D_registry_check => 7 | D_wait_lock => 6
      | D_wait_unlock => 5 | D_registry_unlock => 4 | D_recached_lock => 3
      | D_recached => 2 | D_load => 6 | D_load_lock => 5 | D_request => 4
      | D_decoding => 3 | D_load_set => 2 | D_paint => 1 | D_done => 0
      end
  end%nat.

Definition work (s : System) : nat := sum_list (remaining <$> threads s).

(** Every locked mutex has its holder among the threads, and a renderer
    that is about to wait for a frame mutex finds it in the registry. *)
Record ownership (s : System) : Prop := mkOwnership {
  own_holder : forall m t,
    owner s m = Some t ->
    exists th, threads s !! t = Some th /\ holds m th = true;
  own_latch : forall i t,
    cachingFramesMutices (handler s) !! i = Some (Some t) ->
    exists th, threads s !! t = Some th /\ latched th = Some i;
  own_wait : forall t i z,
    threads s !! t = Some (Drawing i z D_wait_lock) ->
    is_Some (cachingFramesMutices (handler s) !! i)
}.

(** A worker that found its frame missing from the cache (line 162) and
    has not inserted it yet. *)
Definition past_check (th : Thread) : option Z :=
  match th with
  | Caching i (C_registry_lock | C_registry_check | C_register
               | C_registry_unlock | C_load_lock | C_request | C_decoding
               | C_insert_lock | C_insert) _ => Some i
  | _ => None
  end.

(** The frames that were cached in [h0] are still cached, with their
    images; no worker is about to insert one of them, and none was asked
    of the producer for caching since. *)
Record keeps_cached (h0 : videoHandler) (s : System) : Prop := mkKeepsCached {
  kept_image : forall j img,
    imageCache h0 !! j = Some img -> imageCache (handler s) !! j = Some img;
  kept_out : forall t th i,
    threads s !! t = Some th -> past_check th = Some i ->
    imageCache h0 !! i = None;
  kept_quiet : forall j,
    is_Some (imageCache h0 !! j) ->
    count (is_emit (signalRequestFrame j true)) (trace (handler s)) =
    count (is_emit (signalRequestFrame j true)) (trace h0)
}.

(** ** The difference of two items *)

(** The second item of [calculateDifference]: another [videoHandler]
    (the [dynamic_cast] succeeds) or some other [frameHandler].  The two
    items are different objects. *)
Inductive Peer : Type :=
| VideoPeer (item2 : videoHandler)
| OtherPeer.

(** [frameHandler::calculateDifference], with the arguments it is handed
    on unchanged ([differenceInfoList], [amplificationFactor],
    [markDifference]) left inside; its code is not part of this file, so
    it may do anything to the two items. *)
Variable frameHandler_calculateDifference :
  Peer -> Z -> videoHandler -> QImage * videoHandler * Peer.

Definition calculateDifference (item2 : Peer) (frame : Z) (h : videoHandler)
    : QImage * videoHandler * Peer :=
  match item2 with
  | OtherPeer => frameHandler_calculateDifference item2 frame h
  | VideoPeer videoItem2 =>
      let h := if negb (currentImageIdx h =? frame) then loadFrame frame h else h in
      let h := loadFrame frame h in
      let videoItem2 :=
        if negb (currentImageIdx videoItem2 =? frame)
        then loadFrame frame videoItem2 else videoItem2 in
      frameHandler_calculateDifference (VideoPeer videoItem2) frame h
  end.

(** The producer answers every request of the renderer for frame [i]. *)
Definition answers (i : Z) : Prop :=
  forall p buf idx, exists p' img,
    requestFrame i false p buf idx = (p', img, i).

End Handler.

(** ** Sample surroundings, used to run the model on concrete inputs *)

Module Samples.

Definition frame (i : Z) : QImage := QImage_raster 2 1 [i; i + 1].

(** A producer that decodes at once; its state counts the decodes. *)
Definition ready (i : Z) (caching : bool) (p : nat) (buf : QImage) (idx : Z)
    : nat * QImage * Z := (S p, frame i, i).

(** A producer that defers every request and leaves the buffer alone. *)
Definition deferring (i : Z) (caching : bool) (p : nat) (buf : QImage) (idx : Z)
    : nat * QImage * Z := (p, buf, idx).

(** A base class whose slots do nothing to the handler. *)
Definition base_slot (h : @videoHandler nat) : videoHandler := h.
Definition base_timerEvent (id : Z) (h : @videoHandler nat) : videoHandler := h.

(** A base class whose difference is the image of the first item. *)
Definition base_diff (item2 : @Peer nat) (frame : Z) (h : @videoHandler nat)
    : QImage * videoHandler * Peer := (currentImage h, h, item2).

Definition fresh_handler : @videoHandler nat :=
  videoHandler_new (mkSize 2 1) (-1) 0%nat 1%positive.

(** Frames 1 and 2 cached, frame 1 on display, frame 5 requested last. *)
Definition showing_1 : @videoHandler nat :=
  mkHandler (frame 1) 1 1 false (mkSize 2 1)
            (<[1 := frame 1]> (<[2 := frame 2]> ∅)) ∅
            (frame 5) 5 (mkTimer 0) 0%nat 1%positive [].

(** Thread 0 caches frame 1 and thread 1 draws frame 2; both frames are
    cached at the start. *)
Definition cached_system : @System nat :=
  start showing_1 [Caching 1 C_isInCache_lock QImage_null; Drawing 2 1%Q D_start].

(** A producer that decodes at once and stamps the image with the number
    of the decode. *)
Definition stamping (i : Z) (caching : bool) (p : nat) (buf : QImage) (idx : Z)
    : nat * QImage * Z := (S p, QImage_raster 2 1 [i; Z.of_nat p], i).

(** Threads 0 and 1 both cache frame 9. *)
Definition two_workers : @System nat :=
  start fresh_handler
    [Caching 9 C_isInCache_lock QImage_null; Caching 9 C_isInCache_lock QImage_null].

(** Thread 0 registers frame 9 and stands before its request. *)
Definition until_in_flight : list tid := replicate 7 0%nat.

(** Thread 1 is called and looks into the cache (lines 162 to 167); thread
    0 runs to the end of its call; thread 1 goes on from line 170. *)
Definition after_the_probe : list tid :=
  (replicate 2 1 ++ replicate 8 0)%nat.
Definition to_the_end : list tid := replicate 13 1%nat.

(** Thread 0 caches frame 9, thread 1 draws it and thread 2 caches frame
    8. *)
Definition three_threads : @System nat :=
  start fresh_handler
    [Caching 9 C_isInCache_lock QImage_null; Drawing 9 1%Q D_start;
     Caching 8 C_isInCache_lock QImage_null].

(** The renderer is called while thread 0 has frame 9 in flight and looks
    into the cache (line 74); thread 0 runs to the end, thread 2 caches
    frame 8, and the renderer goes on from line 77. *)
Definition past_the_probe : list tid :=
  (replicate 7 0 ++ replicate 3 1)%nat.
Definition renderer_last : list tid :=
  (replicate 8 0 ++ replicate 15 2 ++ replicate 8 1)%nat.

(** Thread 0 caches frame 9 while thread 1 draws it. *)
Definition worker_and_renderer : @System nat :=
  start fresh_handler [Caching 9 C_isInCache_lock QImage_null; Drawing 9 1%Q D_start].

(** The worker gets as far as its request, the renderer as far as the
    frame mutex. *)
Definition until_blocked : list tid := (replicate 7 0 ++ replicate 5 1)%nat.

(** Then the worker decodes, inserts and unlocks. *)
Definition until_unlocked : list tid := (until_blocked ++ replicate 5 0)%nat.

(** The whole run when the producer defers: the worker has nothing to
    insert. *)
Definition deferred_schedule : list tid :=
  (until_blocked ++ replicate 3 0 ++ replicate 3 1 ++ replicate 3 0
   ++ replicate 3 1)%nat.

End Samples.

(** ** Properties of single calls *)

Section Calls.

Context {P : Type}.
Variable requestFrame : Z -> bool -> P -> QImage -> Z -> P * QImage * Z.
Variable me : tid.

Implicit Types h : @videoHandler P.

Lemma since_app h h' t : trace h' = trace h ++ t -> since h h' = t.
Proof. intros E. unfold since. rewrite E. apply drop_app_length. Qed.

Lemma since_trans h h1 h2 t1 t2 :
  trace h1 = trace h ++ t1 -> trace h2 = trace h1 ++ t2 ->
  since h h2 = since h h1 ++ since h1 h2.
Proof.
  intros E1 E2. rewrite (since_app h1 h2 t2 E2), (since_app h h1 t1 E1).
  apply since_app. rewrite E2, E1. symmetry. apply app_assoc.
Qed.

Lemma count_app f (l1 l2 : list Action) :
  count f (l1 ++ l2) = (count f l1 + count f l2)%nat.
Proof. unfold count. rewrite filter_app. apply length_app. Qed.

Ltac trace_eq := cbn; rewrite <- ?app_assoc; reflexivity.

(** Computes [since h h'] once both traces are explicit. *)
Ltac since_eq :=
  unfold since; cbn; rewrite <- ?app_assoc; rewrite ?drop_app_length; cbn.

Local Arguments isActive : simpl never.

(** The setters match on the record: proofs open the handler first. *)
Ltac open_handler h :=
  destruct h as [ci cidx cfi lib fs cache reg rf rfi tmr p nt tr];
  repeat match goal with
         | H : context [mkHandler] |- _ => progress cbn in H
         end;
  cbn.

(** Logging touches the trace only. *)
Lemma log_trace a h : trace (log a h) = trace h ++ [a].
Proof. open_handler h. reflexivity. Qed.

Lemma log_imageCache a h : imageCache (log a h) = imageCache h.
Proof. open_handler h. reflexivity. Qed.

Lemma log_cachingFramesMutices a h :
  cachingFramesMutices (log a h) = cachingFramesMutices h.
Proof. open_handler h. reflexivity. Qed.

Lemma log_producer a h : producer (log a h) = producer h.
Proof. open_handler h. reflexivity. Qed.

Lemma log_requestedFrame_idx a h :
  requestedFrame_idx (log a h) = requestedFrame_idx h.
Proof. open_handler h. reflexivity. Qed.

Lemma log_cachingTimer a h : cachingTimer (log a h) = cachingTimer h.
Proof. open_handler h. reflexivity. Qed.

Create Rewrite HintDb handler.
Hint Rewrite log_trace log_imageCache log_cachingFramesMutices log_producer
  log_requestedFrame_idx log_cachingTimer : handler.

(** What [emit cachingTimerStart] does, in both states of the timer. *)
Lemma emit_cachingTimerStart_trace h :
  trace (emit_cachingTimerStart h) =
  trace h ++ Emit cachingTimerStart ::
    (if isActive (cachingTimer h) then []
     else [TimerStart 1000 (Z.pos (nextTimerId h))]).
Proof.
  open_handler h.
  unfold emit_cachingTimerStart, on_cachingTimerStart, QBasicTimer_start,
    QBasicTimer_stop. cbn.
  destruct (isActive tmr) eqn:E; cbn; [reflexivity|].
  rewrite ?E. trace_eq.
Qed.

Lemma emit_cachingTimerStart_active h :
  isActive (cachingTimer (emit_cachingTimerStart h)) = true.
Proof.
  open_handler h.
  unfold emit_cachingTimerStart, on_cachingTimerStart, QBasicTimer_start,
    QBasicTimer_stop. cbn.
  destruct (isActive tmr) eqn:E; cbn; [exact E|].
  rewrite ?E. reflexivity.
Qed.

Lemma emit_cachingTimerStart_keeps h :
  isActive (cachingTimer h) = true ->
  cachingTimer (emit_cachingTimerStart h) = cachingTimer h.
Proof.
  open_handler h.
  intros E. unfold emit_cachingTimerStart, on_cachingTimerStart. cbn.
  rewrite E. reflexivity.
Qed.

Lemma emit_cachingTimerStart_cache h :
  imageCache (emit_cachingTimerStart h) = imageCache h /\
  cachingFramesMutices (emit_cachingTimerStart h) = cachingFramesMutices h.
Proof.
  open_handler h.
  unfold emit_cachingTimerStart, on_cachingTimerStart, QBasicTimer_start,
    QBasicTimer_stop. cbn.
  destruct (isActive tmr) eqn:E; cbn; [done|]. rewrite ?E. done.
Qed.

Section Expiry.

(** [frameHandler::timerEvent], for the timers of the base class. *)
Variable base_timerEvent : Z -> @videoHandler P -> @videoHandler P.

(** The expiry of the running timer: it is stopped and one signal goes out. *)
Lemma timerEvent_expiry h :
  isActive (cachingTimer h) = true ->
  let h' := timerEvent base_timerEvent (timerId (cachingTimer h)) h in
  trace h' = trace h ++ [TimerStop (timerId (cachingTimer h));
                          Emit (signalHandlerChanged false false)] /\
  isActive (cachingTimer h') = false.
Proof.
  open_handler h.
  intros E. unfold timerEvent, QBasicTimer_stop, emit. cbn.
  rewrite Z.eqb_refl. cbn. rewrite E. cbn. split; [trace_eq | reflexivity].
Qed.

End Expiry.

(** *** Invalidation *)

(** C3.  After [invalidateAllBuffers], whatever the handler held before:
    the frame cache is empty, the current frame is the null image with
    index -1, [requestedFrame_idx] is -1, and [signalUpdateFrameLimits]
    was emitted (it is the first thing the call does). *)
Theorem invalidateAllBuffers_post h :
  let h' := invalidateAllBuffers h in
  imageCache h' = ∅ /\
  currentImage h' = QImage_null /\
  currentImageIdx h' = -1 /\
  requestedFrame_idx h' = -1 /\
  In (Emit signalUpdateFrameLimits) (since h h') /\
  since h h' = [Emit signalUpdateFrameLimits;
                Lock imageCacheAccess; Unlock imageCacheAccess].
Proof.
  open_handler h. unfold invalidateAllBuffers, clearCache, emit. since_eq.
  repeat split. left; reflexivity.
Qed.

Section ControlChanged.

(** [frameHandler::slotVideoControlChanged]. *)
Variable base_slot : @videoHandler P -> @videoHandler P.

(** What [slotVideoControlChanged] does after the base class has run. *)
Lemma slotVideoControlChanged_eq h :
  let b := base_slot h in
  slotVideoControlChanged base_slot h =
  mkHandler (currentImage b) (-1) (currentImage_frameIndex b)
    (loadingInBackground b) (frameSize b) ∅ (cachingFramesMutices b)
    (requestedFrame b) (requestedFrame_idx b) (cachingTimer b)
    (producer b) (nextTimerId b)
    (trace b ++ [Emit signalUpdateFrameLimits; Lock imageCacheAccess;
                 Unlock imageCacheAccess; Emit (signalHandlerChanged true true)]).
Proof.
  cbn zeta. unfold slotVideoControlChanged, clearCache, emit.
  destruct (base_slot h) as [ci cidx cfi lib fs cache reg rf rfi tmr p nt tr].
  cbn. f_equal. rewrite <- !app_assoc. reflexivity.
Qed.

(** C2, as the code has it.  [slotVideoControlChanged] first lets the base
    class handle the signal; then it emits [signalUpdateFrameLimits], sets
    the index of the current frame to -1, clears the frame cache and last
    emits [signalHandlerChanged(true, true)].  The current image and
    [requestedFrame_idx] are whatever the base class left. *)
Theorem slotVideoControlChanged_post h :
  let b := base_slot h in
  let h' := slotVideoControlChanged base_slot h in
  since b h' = [Emit signalUpdateFrameLimits; Lock imageCacheAccess;
                Unlock imageCacheAccess; Emit (signalHandlerChanged true true)] /\
  currentImageIdx h' = -1 /\
  imageCache h' = ∅ /\
  currentImage h' = currentImage b /\
  requestedFrame_idx h' = requestedFrame_idx b /\
  requestedFrame h' = requestedFrame b.
Proof.
  cbn zeta. rewrite slotVideoControlChanged_eq.
  destruct (base_slot h) as [ci cidx cfi lib fs cache reg rf rfi tmr p nt tr].
  since_eq. done.
Qed.

End ControlChanged.

(** *** Removal from the cache *)

Lemma isInCache_result h idx :
  (isInCache idx h).1 = contains (imageCache h) idx.
Proof. open_handler h. reflexivity. Qed.

(** C6.  For an index [idx >= 0], after [removefromCache idx] the frame is
    not in the cache and every other entry is as before; after
    [removefromCache (-1)] the cache is empty. *)
Theorem removefromCache_post h idx :
  0 <= idx ->
  (isInCache idx (removefromCache idx h)).1 = false /\
  (forall j, j <> idx ->
     imageCache (removefromCache idx h) !! j = imageCache h !! j) /\
  imageCache (removefromCache (-1) h) = ∅.
Proof.
  intros Hidx. rewrite isInCache_result. unfold removefromCache, contains.
  assert (E : (idx =? -1) = false) by lia. rewrite E.
  rewrite !(proj1 (emit_cachingTimerStart_cache _)).
  open_handler h.
  rewrite lookup_delete_eq. repeat split.
  intros j Hj. by rewrite lookup_delete_ne.
Qed.

Section Shrinking.

Variable base_timerEvent : Z -> @videoHandler P -> @videoHandler P.

(** C10.  [removefromCache] arms the notifier whatever it is asked to
    remove: [cachingTimerStart] is emitted, the timer runs afterwards (it
    is started exactly when it was not running), and the expiry of that
    timer emits one [signalHandlerChanged]. *)
Theorem removefromCache_arms_notifier h idx :
  let h' := removefromCache idx h in
  count (is_emit cachingTimerStart) (since h h') = 1%nat /\
  count is_timer_start (since h h') =
    (if isActive (cachingTimer h) then 0 else 1)%nat /\
  isActive (cachingTimer h') = true /\
  let h'' := timerEvent base_timerEvent (timerId (cachingTimer h')) h' in
  since h' h'' = [TimerStop (timerId (cachingTimer h'));
                  Emit (signalHandlerChanged false false)] /\
  count is_handler_changed (since h' h'') = 1%nat /\
  isActive (cachingTimer h'') = false.
Proof.
  cbn zeta.
  assert (E : trace (removefromCache idx h) =
    trace h ++ [Lock imageCacheAccess; Unlock imageCacheAccess;
                Emit cachingTimerStart] ++
      (if isActive (cachingTimer h) then []
       else [TimerStart 1000 (Z.pos (nextTimerId h))])).
  { unfold removefromCache. rewrite emit_cachingTimerStart_trace.
    open_handler h. destruct (idx =? -1); cbn; rewrite <- !app_assoc; reflexivity. }
  assert (A : isActive (cachingTimer (removefromCache idx h)) = true)
    by apply emit_cachingTimerStart_active.
  destruct (timerEvent_expiry base_timerEvent _ A) as [E2 A2].
  rewrite (since_app _ _ _ E), (since_app _ _ _ E2).
  repeat split; try assumption; destruct (isActive (cachingTimer h)); reflexivity.
Qed.

End Shrinking.

(** *** Background caching *)

Ltac unfold_cacheFrame :=
  unfold cacheFrame, isInCache, contains, loadFrameForCaching,
    emit_signalRequestFrame, producerReturns, insertIntoCache,
    registerFrameMutex, unlockFrameMutex, takeFrameMutex,
    emit_cachingTimerStart, on_cachingTimerStart, QBasicTimer_start,
    QBasicTimer_stop.

(** The frame is cached already: only the probe of the cache happens. *)
Lemma cacheFrame_cached h i :
  is_Some (imageCache h !! i) ->
  cacheFrame requestFrame me i h =
  log (Unlock imageCacheAccess) (log (Lock imageCacheAccess) h).
Proof.
  open_handler h.
  intros [img E]. unfold_cacheFrame. cbn. rewrite E. reflexivity.
Qed.

(** Another thread is caching the frame: the cache and the registry are
    probed and nothing else happens. *)
Lemma cacheFrame_in_flight h i :
  imageCache h !! i = None ->
  is_Some (cachingFramesMutices h !! i) ->
  cacheFrame requestFrame me i h =
  log (Unlock cachingFramesMuticesAccess)
    (log (Lock cachingFramesMuticesAccess)
       (log (Unlock imageCacheAccess) (log (Lock imageCacheAccess) h))).
Proof.
  open_handler h.
  intros E [m Em]. unfold_cacheFrame. cbn. rewrite E. cbn. rewrite Em.
  reflexivity.
Qed.

(** The full run of [cacheFrame] on a frame that is neither cached nor
    being cached. *)
Lemma cacheFrame_miss h i p' img' idx' :
  imageCache h !! i = None ->
  cachingFramesMutices h !! i = None ->
  requestFrame i true (producer h) (requestedFrame h) (requestedFrame_idx h)
    = (p', img', idx') ->
  let h' := cacheFrame requestFrame me i h in
  let got := decoded i img' idx' in
  imageCache h' =
    (if isNull got then imageCache h else <[i := got]> (imageCache h)) /\
  cachingFramesMutices h' = cachingFramesMutices h /\
  trace h' =
    trace h ++
    [Lock imageCacheAccess; Unlock imageCacheAccess;
     Lock cachingFramesMuticesAccess; Lock (frameMutex i);
     Unlock cachingFramesMuticesAccess; Lock requestDataMutex;
     Emit (signalRequestFrame i true); Unlock requestDataMutex] ++
    (if isNull got then [] else [Lock imageCacheAccess; Unlock imageCacheAccess]) ++
    [Unlock (frameMutex i); Lock cachingFramesMuticesAccess;
     Unlock cachingFramesMuticesAccess; Emit cachingTimerStart] ++
    (if isActive (cachingTimer h) then []
     else [TimerStart 1000 (Z.pos (nextTimerId h))]) /\
  isActive (cachingTimer h') = true /\
  (isActive (cachingTimer h) = true -> cachingTimer h' = cachingTimer h) /\
  currentImage h' = currentImage h /\
  currentImageIdx h' = currentImageIdx h /\
  producer h' = p'.
Proof.
  open_handler h.
  intros E Em Ep. unfold decoded. unfold_cacheFrame. cbn.
  rewrite E. cbn. rewrite Em. cbn. rewrite Ep. cbn.
  destruct (idx' =? i) eqn:Ei; cbn;
    [destruct (isNull img') eqn:En; cbn|];
    destruct (isActive tmr) eqn:Ea; cbn; rewrite ?Ea; cbn;
    rewrite ?delete_insert_eq, ?delete_id by assumption;
    rewrite <- ?app_assoc; cbn; repeat split; try done.
Qed.

(** A call for a frame that is cached returns at once: no
    [signalRequestFrame] goes out, the producer is not touched, and the
    cache, the registry and the timer are as before.  And two calls in a
    row, the first of which decodes the frame, leave one entry for it and
    made one request. *)
Lemma cacheFrame_twice h i :
  (is_Some (imageCache h !! i) ->
   let h' := cacheFrame requestFrame me i h in
   count is_request (since h h') = 0%nat /\
   imageCache h' = imageCache h /\
   cachingFramesMutices h' = cachingFramesMutices h /\
   producer h' = producer h /\
   requestedFrame_idx h' = requestedFrame_idx h /\
   cachingTimer h' = cachingTimer h) /\
  (forall p' img,
   imageCache h !! i = None ->
   cachingFramesMutices h !! i = None ->
   requestFrame i true (producer h) (requestedFrame h) (requestedFrame_idx h)
     = (p', img, i) ->
   isNull img = false ->
   let h2 := cacheFrame requestFrame me i (cacheFrame requestFrame me i h) in
   imageCache h2 = <[i := img]> (imageCache h) /\
   size (imageCache h2) = S (size (imageCache h)) /\
   count is_request (since h h2) = 1%nat /\
   producer h2 = p').
Proof.
  split.
  - intros Hin. cbn zeta.
    rewrite cacheFrame_cached by assumption.
    autorewrite with handler. split; [|done].
    erewrite since_app;
      [|autorewrite with handler; by rewrite <- ?app_assoc].
    reflexivity.
  - intros p' img E Em Ep Hn. cbn zeta.
    destruct (cacheFrame_miss h i _ _ _ E Em Ep)
      as (Hc & Hr & Ht & _ & _ & _ & _ & Hp).
    unfold decoded in Hc, Ht. rewrite Z.eqb_refl, Hn in Hc, Ht.
    rewrite (cacheFrame_cached (cacheFrame requestFrame me i h))
      by (rewrite Hc, lookup_insert_eq; eauto).
    autorewrite with handler. rewrite Hc. split; [done|]. split.
    { by apply map_size_insert_None. }
    split; [|done].
    erewrite since_app;
      [|autorewrite with handler; rewrite Ht, <- ?app_assoc; reflexivity].
    destruct (isActive (cachingTimer h)); reflexivity.
Qed.

(** *** The change notifier *)

(** Calls of [cacheFrame] for distinct frames that are neither cached nor
    being cached: every call arms the notifier, the timer is started by
    the first call unless it was running before. *)
Lemma cacheFrames_trace l : forall h,
  NoDup l ->
  (forall i, i ∈ l ->
     imageCache h !! i = None /\ cachingFramesMutices h !! i = None) ->
  exists t,
    trace (cacheFrames requestFrame me l h) = trace h ++ t /\
    count (is_emit cachingTimerStart) t = length l /\
    count is_request t = length l /\
    count is_handler_changed t = 0%nat /\
    count is_timer_start t =
      (if isActive (cachingTimer h) then 0
       else match l with [] => 0 | _ => 1 end)%nat /\
    isActive (cachingTimer (cacheFrames requestFrame me l h)) =
      (isActive (cachingTimer h) || match l with [] => false | _ => true end).
Proof.
  induction l as [|a l IH]; intros h Hnd Hfree.
  - exists []. cbn. rewrite app_nil_r, orb_false_r.
    repeat split. by destruct (isActive (cachingTimer h)).
  - apply NoDup_cons in Hnd as [Ha Hnd].
    destruct (Hfree a) as [E Em]; [left|].
    destruct (requestFrame a true (producer h) (requestedFrame h)
                (requestedFrame_idx h)) as [[p' img'] idx'] eqn:Ep.
    destruct (cacheFrame_miss h a _ _ _ E Em Ep)
      as (Hc & Hr & Ht & Hact & _ & _ & _ & _).
    destruct (IH (cacheFrame requestFrame me a h) Hnd)
      as (t & Et & Hemit & Hreq & Hhc & Hstart & Hact').
    { intros j Hj. destruct (Hfree j) as [Ej Emj]; [by right|].
      rewrite Hr. split; [|done]. rewrite Hc.
      destruct (isNull _); [done|].
      rewrite lookup_insert_ne; [done|]. intros ->. done. }
    change (cacheFrames requestFrame me (a :: l) h)
      with (cacheFrames requestFrame me l (cacheFrame requestFrame me a h)).
    eexists. split.
    { rewrite Et, Ht, <- ?app_assoc. reflexivity. }
    rewrite Hact in Hstart, Hact'.
    rewrite !count_app, Hemit, Hreq, Hhc, Hstart, Hact', orb_true_r.
    destruct (isNull _), (isActive (cachingTimer h)); repeat split.
Qed.

Section Growing.

Variable base_timerEvent : Z -> @videoHandler P -> @videoHandler P.

(** C1, as the code has it.  After calls of [cacheFrame] for [K >= 1]
    distinct frames (none cached or being cached before), the timer runs
    and was started at most once: only if it was not already active.
    No [signalHandlerChanged] has gone out yet.  When the timer expires
    it is stopped and exactly one [signalHandlerChanged] is emitted; its
    arguments are [(false, false)]. *)
Theorem cacheFrames_one_notification h l :
  l <> [] ->
  NoDup l ->
  (forall i, i ∈ l ->
     imageCache h !! i = None /\ cachingFramesMutices h !! i = None) ->
  let h1 := cacheFrames requestFrame me l h in
  count (is_emit cachingTimerStart) (since h h1) = length l /\
  count is_timer_start (since h h1) =
    (if isActive (cachingTimer h) then 0 else 1)%nat /\
  isActive (cachingTimer h1) = true /\
  let h2 := timerEvent base_timerEvent (timerId (cachingTimer h1)) h1 in
  since h1 h2 = [TimerStop (timerId (cachingTimer h1));
                 Emit (signalHandlerChanged false false)] /\
  count is_handler_changed (since h h2) = 1%nat /\
  isActive (cachingTimer h2) = false.
Proof.
  intros Hl Hnd Hfree. cbn zeta.
  destruct (cacheFrames_trace l h Hnd Hfree)
    as (t & Et & Hemit & _ & Hhc & Hstart & Hact).
  assert (A : isActive (cachingTimer (cacheFrames requestFrame me l h)) = true).
  { rewrite Hact. destruct l; [done|]. apply orb_true_r. }
  destruct (timerEvent_expiry base_timerEvent _ A) as [E2 A2].
  rewrite (since_trans _ _ _ _ _ Et E2).
  rewrite (since_app _ _ _ Et), (since_app _ _ _ E2).
  rewrite count_app, Hhc, Hemit, Hstart.
  repeat split; try assumption. destruct l; [done|reflexivity].
Qed.

End Growing.


(** *** Drawing *)

(** [loadFrame] when the producer defers: the request goes out under the
    request mutex and nothing else changes. *)
Lemma loadFrame_deferred_eq h i p' img' idx' :
  requestedFrame_idx h <> i ->
  requestFrame i false (producer h) (requestedFrame h) (requestedFrame_idx h)
    = (p', img', idx') ->
  idx' <> i ->
  loadFrame requestFrame i h =
  log (Unlock requestDataMutex)
    (set_requested img' idx' p'
       (log (Emit (signalRequestFrame i false)) (log (Lock requestDataMutex) h))).
Proof.
  open_handler h.
  intros Hr Ep Hi. unfold loadFrame, emit_signalRequestFrame, producerReturns.
  apply Z.eqb_neq in Hr, Hi. cbn. rewrite Hr. cbn. rewrite Ep. cbn. rewrite Hi.
  reflexivity.
Qed.

(** C5.  The producer defers: it returns from [signalRequestFrame(i, false)]
    with [requestedFrame_idx] different from [i].  Then [loadFrame i]
    leaves the current image and its index as they were; and [drawFrame]
    for [i], when it gets as far as [loadFrame] (the frame is not the
    current one, not cached and not being cached), returns with
    [loadingInBackground] set. *)
Theorem loadFrame_deferred h i zoomFactor p' img' idx' :
  requestedFrame_idx h <> i ->
  requestFrame i false (producer h) (requestedFrame h) (requestedFrame_idx h)
    = (p', img', idx') ->
  idx' <> i ->
  (currentImage (loadFrame requestFrame i h) = currentImage h /\
   currentImageIdx (loadFrame requestFrame i h) = currentImageIdx h) /\
  (currentImageIdx h <> i ->
   imageCache h !! i = None ->
   cachingFramesMutices h !! i = None ->
   exists h',
     drawFrame requestFrame i zoomFactor h = Some h' /\
     loadingInBackground h' = true /\
     currentImage h' = currentImage h /\
     currentImageIdx h' = currentImageIdx h /\
     In (Emit (signalRequestFrame i false)) (since h h')).
Proof.
  intros Hr Ep Hi. split.
  - rewrite (loadFrame_deferred_eq h i p' img' idx') by assumption.
    open_handler h. done.
  - intros Hc E Em.
    assert (Hc' : (i =? currentImageIdx h) = false) by (apply Z.eqb_neq; congruence).
    apply Z.eqb_neq in Hr, Hi, Hc.
    open_handler h.
    unfold drawFrame, makeCachedFrameCurrent, contains, loadFrame,
      emit_signalRequestFrame, producerReturns, drawCurrent, drawPixelValues.
    cbn. rewrite Hc'. cbn. rewrite E. cbn. rewrite Em. cbn. rewrite Hr. cbn.
    rewrite Ep. cbn. rewrite Hi. cbn.
    eexists. split; [reflexivity|]. rewrite Hc.
    destruct (Qle_bool 64 zoomFactor); since_eq; tauto.
Qed.

(** C7, as the code has it.  [drawFrame] for the frame that is current
    takes no mutex and emits nothing; all it does to the handler is to
    clear [loadingInBackground].  It paints the current image and, from
    zoom 64 on, the pixel values over it. *)
Theorem drawFrame_current h i zoomFactor :
  i = currentImageIdx h ->
  exists h',
    drawFrame requestFrame i zoomFactor h = Some h' /\
    h' = set_loadingInBackground false (mkHandler
           (currentImage h) (currentImageIdx h) (currentImage_frameIndex h)
           (loadingInBackground h) (frameSize h) (imageCache h)
           (cachingFramesMutices h) (requestedFrame h) (requestedFrame_idx h)
           (cachingTimer h) (producer h) (nextTimerId h) (trace h')) /\
    since h h' =
      DrawImage (videoRect (frameSize h) zoomFactor) (currentImage h) ::
      (if Qle_bool 64 zoomFactor
       then [DrawPixelValues i (videoRect (frameSize h) zoomFactor) zoomFactor]
       else []) /\
    count is_mutex_action (since h h') = 0%nat /\
    count is_request (since h h') = 0%nat.
Proof.
  intros ->. unfold drawFrame. rewrite Z.eqb_refl. cbn.
  eexists. split; [reflexivity|].
  unfold drawCurrent, drawPixelValues. rewrite Z.eqb_refl.
  open_handler h.
  destruct (Qle_bool 64 zoomFactor); since_eq; repeat split.
Qed.

(** *** More about drawing *)

Ltac unfold_drawFrame :=
  unfold drawFrame, makeCachedFrameCurrent, waitForFrameMutex, contains,
    loadFrame, emit_signalRequestFrame, producerReturns,
    setRequestedAsCurrent, drawCurrent, drawPixelValues.

(** What [drawFrame] does with a frame that is cached and not the
    current one. *)
Lemma drawFrame_cached h i zoomFactor img :
  i <> currentImageIdx h ->
  imageCache h !! i = Some img ->
  exists h',
    drawFrame requestFrame i zoomFactor h = Some h' /\
    currentImage h' = img /\
    currentImageIdx h' = i /\
    loadingInBackground h' = false /\
    imageCache h' = imageCache h /\
    cachingFramesMutices h' = cachingFramesMutices h /\
    requestedFrame_idx h' = requestedFrame_idx h /\
    producer h' = producer h /\
    trace h' =
      trace h ++
      [Lock imageCacheAccess; Unlock imageCacheAccess;
       DrawImage (videoRect (frameSize h) zoomFactor) img] ++
      (if Qle_bool 64 zoomFactor
       then [DrawPixelValues i (videoRect (frameSize h) zoomFactor) zoomFactor]
       else []).
Proof.
  intros Hc E. apply Z.eqb_neq in Hc. open_handler h. unfold_drawFrame. cbn.
  rewrite Hc. cbn. rewrite E. cbn. rewrite Z.eqb_refl.
  eexists. split; [reflexivity|].
  destruct (Qle_bool 64 zoomFactor); cbn; rewrite <- ?app_assoc; repeat split.
Qed.

(** X1.  A frame that is cached and not the current one is drawn from the
    cache: it becomes the current frame and is painted, no request goes
    to the producer, and neither the registry nor a frame mutex is
    touched, so the call returns also while a worker holds the mutex of
    that very frame. *)
Theorem drawFrame_cache_hit h i zoomFactor img :
  i <> currentImageIdx h ->
  imageCache h !! i = Some img ->
  exists h',
    drawFrame requestFrame i zoomFactor h = Some h' /\
    currentImage h' = img /\
    currentImageIdx h' = i /\
    loadingInBackground h' = false /\
    imageCache h' = imageCache h /\
    cachingFramesMutices h' = cachingFramesMutices h /\
    In (DrawImage (videoRect (frameSize h) zoomFactor) img) (since h h') /\
    count is_request (since h h') = 0%nat /\
    (forall m, In (Lock m) (since h h') -> m = imageCacheAccess).
Proof.
  intros Hc E.
  destruct (drawFrame_cached h i zoomFactor img Hc E)
    as (h' & Hd & H1 & H2 & H3 & H4 & H5 & _ & _ & Ht).
  exists h'. rewrite (since_app _ _ _ Ht).
  repeat split; try assumption.
  - right. right. left. reflexivity.
  - destruct (Qle_bool 64 zoomFactor); reflexivity.
  - intros m Hin. destruct (Qle_bool 64 zoomFactor); cbn in Hin;
      repeat destruct Hin as [Hin|Hin]; simplify_eq; done.
Qed.

(** X2.  A frame that is neither current, cached nor being cached is
    loaded in the foreground.  When the producer answers the request,
    the frame becomes the current one, with exactly one request and the
    cache as it was. *)
Theorem drawFrame_foreground_load h i zoomFactor p' img :
  i <> currentImageIdx h ->
  imageCache h !! i = None ->
  cachingFramesMutices h !! i = None ->
  requestedFrame_idx h <> i ->
  requestFrame i false (producer h) (requestedFrame h) (requestedFrame_idx h)
    = (p', img, i) ->
  exists h',
    drawFrame requestFrame i zoomFactor h = Some h' /\
    currentImage h' = img /\
    currentImageIdx h' = i /\
    loadingInBackground h' = false /\
    imageCache h' = imageCache h /\
    cachingFramesMutices h' = cachingFramesMutices h /\
    requestedFrame_idx h' = i /\
    count is_request (since h h') = 1%nat /\
    In (Emit (signalRequestFrame i false)) (since h h').
Proof.
  intros Hc E Em Hr Ep. apply Z.eqb_neq in Hc, Hr.
  open_handler h. unfold_drawFrame. cbn.
  rewrite Hc. cbn. rewrite E. cbn. rewrite Em. cbn. rewrite Hr. cbn.
  rewrite Ep. cbn. rewrite !Z.eqb_refl. cbn.
  eexists. split; [reflexivity|].
  destruct (Qle_bool 64 zoomFactor); since_eq; repeat split; tauto.
Qed.

(** X3.  When the request buffer already holds frame [i] (it was the last
    frame the producer decoded, for the renderer or for a worker),
    drawing [i] takes the image from the buffer: no request is made at
    all and the request mutex is not taken. *)
Theorem drawFrame_reuses_buffer h i zoomFactor :
  i <> currentImageIdx h ->
  imageCache h !! i = None ->
  cachingFramesMutices h !! i = None ->
  requestedFrame_idx h = i ->
  exists h',
    drawFrame requestFrame i zoomFactor h = Some h' /\
    currentImage h' = requestedFrame h /\
    currentImageIdx h' = i /\
    loadingInBackground h' = false /\
    producer h' = producer h /\
    count is_request (since h h') = 0%nat /\
    ~ In (Lock requestDataMutex) (since h h').
Proof.
  intros Hc E Em Hr. apply Z.eqb_neq in Hc. apply Z.eqb_eq in Hr.
  open_handler h. unfold_drawFrame. cbn.
  rewrite Hc. cbn. rewrite E. cbn. rewrite Em. cbn. rewrite Hr. cbn.
  rewrite Z.eqb_refl.
  eexists. split; [reflexivity|].
  destruct (Qle_bool 64 zoomFactor); since_eq; repeat split;
    intros Hin; repeat destruct Hin as [Hin|Hin]; try discriminate; done.
Qed.

(** *** More about loading *)

(** X6.  [loadFrame] with a producer that answers: the answer becomes
    the current frame with one request, the cache and the registry are
    not touched, and a second [loadFrame] for the same frame changes
    nothing: it sees the index in the request buffer and asks nobody. *)
Theorem loadFrame_success h i p' img :
  requestedFrame_idx h <> i ->
  requestFrame i false (producer h) (requestedFrame h) (requestedFrame_idx h)
    = (p', img, i) ->
  let h' := loadFrame requestFrame i h in
  currentImage h' = img /\
  currentImageIdx h' = i /\
  requestedFrame_idx h' = i /\
  imageCache h' = imageCache h /\
  cachingFramesMutices h' = cachingFramesMutices h /\
  since h h' = [Lock requestDataMutex; Emit (signalRequestFrame i false);
                Unlock requestDataMutex] /\
  loadFrame requestFrame i h' = h'.
Proof.
  intros Hr Ep. apply Z.eqb_neq in Hr. open_handler h.
  unfold loadFrame, emit_signalRequestFrame, producerReturns,
    setRequestedAsCurrent. cbn.
  rewrite Hr. cbn. rewrite Ep. cbn. rewrite !Z.eqb_refl. cbn.
  since_eq. repeat split.
Qed.

(** *** More about caching *)

(** X7.  A call of [cacheFrame] whose request brings no image (the
    producer answers for another index, or with a null image) leaves the
    cache and the registry as they were: the frame is still not cached.
    The request was made and the notifier is armed all the same.
    Nothing remembers the failure: the next call asks the producer
    again. *)
Theorem cacheFrame_failed h i p' img' idx' :
  imageCache h !! i = None ->
  cachingFramesMutices h !! i = None ->
  requestFrame i true (producer h) (requestedFrame h) (requestedFrame_idx h)
    = (p', img', idx') ->
  isNull (decoded i img' idx') = true ->
  let h' := cacheFrame requestFrame me i h in
  imageCache h' = imageCache h /\
  cachingFramesMutices h' = cachingFramesMutices h /\
  (isInCache i h').1 = false /\
  count is_request (since h h') = 1%nat /\
  count (is_emit cachingTimerStart) (since h h') = 1%nat /\
  isActive (cachingTimer h') = true /\
  count is_request (since h' (cacheFrame requestFrame me i h')) = 1%nat.
Proof.
  intros E Em Ep Hn. cbn zeta.
  destruct (cacheFrame_miss h i _ _ _ E Em Ep)
    as (Hc & Hr & Ht & Ha & _ & _ & _ & _).
  rewrite Hn in Hc, Ht. rewrite isInCache_result. unfold contains.
  rewrite Hc, Hr, E, (since_app _ _ _ Ht).
  repeat split; try assumption;
    try (destruct (isActive (cachingTimer h)); reflexivity).
  set (h' := cacheFrame requestFrame me i h) in *.
  destruct (requestFrame i true (producer h') (requestedFrame h')
              (requestedFrame_idx h')) as [[p2 img2] idx2] eqn:Ep2.
  destruct (cacheFrame_miss h' i _ _ _ ltac:(by rewrite Hc) ltac:(by rewrite Hr) Ep2)
    as (_ & _ & Ht2 & _).
  rewrite (since_app _ _ _ Ht2), Ha.
  destruct (isNull (decoded i img2 idx2)); reflexivity.
Qed.

(** X8.  Whatever happens inside, [cacheFrame] does not touch what the
    renderer owns (the current image, its index, [loadingInBackground]),
    hands the registry back as it found it, and never removes or changes
    the entry of another frame. *)
Theorem cacheFrame_keeps_renderer_state h i :
  let h' := cacheFrame requestFrame me i h in
  currentImage h' = currentImage h /\
  currentImageIdx h' = currentImageIdx h /\
  currentImage_frameIndex h' = currentImage_frameIndex h /\
  loadingInBackground h' = loadingInBackground h /\
  frameSize h' = frameSize h /\
  cachingFramesMutices h' = cachingFramesMutices h /\
  (forall j, j <> i -> imageCache h' !! j = imageCache h !! j) /\
  (forall j, is_Some (imageCache h !! j) -> is_Some (imageCache h' !! j)).
Proof.
  open_handler h. unfold_cacheFrame. cbn.
  destruct (cache !! i) as [img|] eqn:E; cbn; [by repeat split|].
  destruct (reg !! i) as [m|] eqn:Em; cbn; [by repeat split|].
  destruct (requestFrame i true p rf rfi) as [[p' img'] idx'] eqn:Ep. cbn.
  destruct (idx' =? i) eqn:Ei; cbn;
    [destruct (isNull img') eqn:En; cbn|];
    destruct (isActive tmr) eqn:Ea; cbn; rewrite ?Ea; cbn;
    rewrite ?delete_insert_eq, ?delete_id by assumption;
    repeat split; try done.
  all: try (intros j Hj; by rewrite lookup_insert_ne).
  all: intros j Hj; rewrite lookup_insert_is_Some;
       destruct (decide (i = j)); auto.
Qed.

(** X9.  Caching a frame and then drawing it: the renderer takes the
    image from the cache, and the only request the producer ever saw is
    the worker's. *)
Theorem cacheFrame_then_drawFrame h i zoomFactor p' img :
  i <> currentImageIdx h ->
  imageCache h !! i = None ->
  cachingFramesMutices h !! i = None ->
  requestFrame i true (producer h) (requestedFrame h) (requestedFrame_idx h)
    = (p', img, i) ->
  isNull img = false ->
  exists h',
    drawFrame requestFrame i zoomFactor (cacheFrame requestFrame me i h) = Some h' /\
    currentImage h' = img /\
    currentImageIdx h' = i /\
    loadingInBackground h' = false /\
    count is_request (since h h') = 1%nat /\
    count (is_emit (signalRequestFrame i false)) (since h h') = 0%nat /\
    producer h' = p'.
Proof.
  intros Hcur E Em Ep Hn.
  destruct (cacheFrame_miss h i _ _ _ E Em Ep)
    as (Hc & Hr & Ht & _ & _ & _ & Hidx & Hp).
  unfold decoded in Hc, Ht. rewrite Z.eqb_refl, Hn in Hc, Ht.
  set (h1 := cacheFrame requestFrame me i h) in *.
  destruct (drawFrame_cached h1 i zoomFactor img)
    as (h' & Hd & H1 & H2 & H3 & _ & _ & _ & Hp' & Ht').
  { congruence. }
  { rewrite Hc. apply lookup_insert_eq. }
  exists h'. split; [exact Hd|]. repeat split; try assumption.
  - erewrite since_app; [|rewrite Ht', Ht, <- ?app_assoc; reflexivity].
    rewrite !count_app.
    destruct (isActive (cachingTimer h)), (Qle_bool 64 zoomFactor); reflexivity.
  - erewrite since_app; [|rewrite Ht', Ht, <- ?app_assoc; reflexivity].
    rewrite !count_app. unfold count. cbn.
    rewrite !bool_decide_eq_false_2 by discriminate.
    destruct (isActive (cachingTimer h)), (Qle_bool 64 zoomFactor); reflexivity.
  - congruence.
Qed.

Lemma log_currentImage a h :
  currentImage (log a h) = currentImage h /\
  currentImageIdx (log a h) = currentImageIdx h.
Proof. open_handler h. done. Qed.

(** What [removefromCache] does to the handler. *)
Lemma removefromCache_fields h idx :
  let h' := removefromCache idx h in
  imageCache h' = (if idx =? -1 then ∅ else delete idx (imageCache h)) /\
  cachingFramesMutices h' = cachingFramesMutices h /\
  currentImage h' = currentImage h /\
  currentImageIdx h' = currentImageIdx h /\
  isActive (cachingTimer h') = true /\
  trace h' =
    trace h ++ [Lock imageCacheAccess; Unlock imageCacheAccess;
                Emit cachingTimerStart] ++
      (if isActive (cachingTimer h) then []
       else [TimerStart 1000 (Z.pos (nextTimerId h))]) /\
  frameSize h' = frameSize h.
Proof.
  open_handler h. unfold removefromCache, emit_cachingTimerStart,
    on_cachingTimerStart, QBasicTimer_start, QBasicTimer_stop.
  destruct (idx =? -1); cbn;
    destruct (isActive tmr) eqn:Ea; cbn; rewrite ?Ea; cbn;
    rewrite <- ?app_assoc; done.
Qed.

(** X10.  A round trip: caching a frame that was not cached and removing it
    again gives back the cache as it was, with the registry and the
    current frame untouched; over the two calls the timer is started at
    most once (exactly when it was not running). *)
Theorem cacheFrame_then_removefromCache h i :
  i <> -1 ->
  imageCache h !! i = None ->
  let h1 := cacheFrame requestFrame me i h in
  let h2 := removefromCache i h1 in
  imageCache h2 = imageCache h /\
  cachingFramesMutices h2 = cachingFramesMutices h /\
  currentImage h2 = currentImage h /\
  currentImageIdx h2 = currentImageIdx h /\
  isActive (cachingTimer h2) = true /\
  count is_timer_start (since h h2) =
    (if isActive (cachingTimer h) then 0 else 1)%nat.
Proof.
  intros Hi E. apply Z.eqb_neq in Hi. cbn zeta.
  destruct (removefromCache_fields (cacheFrame requestFrame me i h) i)
    as (Rc & Rr & Ri & Rx & Ra & Rt & _).
  rewrite Hi in Rc. rewrite Rc, Rr, Ri, Rx.
  destruct (cachingFramesMutices h !! i) as [m|] eqn:Em.
  { rewrite cacheFrame_in_flight in * by eauto.
    rewrite !(proj1 (log_currentImage _ _)), !(proj2 (log_currentImage _ _)).
    autorewrite with handler in *.
    rewrite delete_id by assumption. repeat split; try assumption.
    erewrite since_app; [|rewrite Rt, <- !app_assoc; reflexivity].
    destruct (isActive (cachingTimer h)); reflexivity. }
  destruct (requestFrame i true (producer h) (requestedFrame h)
              (requestedFrame_idx h)) as [[p' img'] idx'] eqn:Ep.
  destruct (cacheFrame_miss h i _ _ _ E Em Ep)
    as (Hc & Hr & Ht & Ha & _ & Hci & Hcx & _).
  rewrite Hc, Hr, Hci, Hcx. repeat split; try assumption.
  - destruct (isNull (decoded i img' idx'));
      [apply delete_id | apply delete_insert_id]; assumption.
  - erewrite since_app; [|rewrite Rt, Ht, Ha, <- !app_assoc; reflexivity].
    rewrite !count_app.
    destruct (isNull (decoded i img' idx')), (isActive (cachingTimer h));
      reflexivity.
Qed.

(** Drawing the frame that is on display. *)
Lemma drawFrame_shown h zoomFactor :
  exists h',
    drawFrame requestFrame (currentImageIdx h) zoomFactor h = Some h' /\
    trace h' =
      trace h ++
      DrawImage (videoRect (frameSize h) zoomFactor) (currentImage h) ::
      (if Qle_bool 64 zoomFactor
       then [DrawPixelValues (currentImageIdx h)
               (videoRect (frameSize h) zoomFactor) zoomFactor]
       else []) /\
    imageCache h' = imageCache h.
Proof.
  open_handler h. unfold_drawFrame. cbn. rewrite Z.eqb_refl. cbn.
  eexists; split; [reflexivity|].
  destruct (Qle_bool 64 zoomFactor); cbn; rewrite <- ?app_assoc; done.
Qed.

(** X11.  Removing frames from the cache, one or all of them, does not reach
    the frame on display: the next [drawFrame] for it paints the same
    image, asks nobody and does not put the frame back into the
    cache. *)
Theorem removefromCache_keeps_shown h idx zoomFactor :
  let h1 := removefromCache idx h in
  currentImage h1 = currentImage h /\
  currentImageIdx h1 = currentImageIdx h /\
  exists h2,
    drawFrame requestFrame (currentImageIdx h) zoomFactor h1 = Some h2 /\
    In (DrawImage (videoRect (frameSize h) zoomFactor) (currentImage h))
       (since h1 h2) /\
    count is_request (since h1 h2) = 0%nat /\
    imageCache h2 = imageCache h1.
Proof.
  cbn zeta.
  destruct (removefromCache_fields h idx) as (_ & _ & Ri & Rx & _ & _ & Rs).
  do 2 (split; [assumption|]).
  destruct (drawFrame_shown (removefromCache idx h) zoomFactor)
    as (h2 & Hd & Ht & Hc).
  rewrite Ri, Rx, Rs in *.
  exists h2. split; [exact Hd|]. rewrite (since_app _ _ _ Ht).
  repeat split; [left; reflexivity | | exact Hc].
  destruct (Qle_bool 64 zoomFactor); reflexivity.
Qed.

(** *** The queries of the cache *)

(** X12.  The three queries of the cache agree: [getNrFramesCached] is the
    length of [getCachedFrames], which lists no frame twice and lists
    exactly the frames for which [isInCache] says yes.  None of them
    changes the handler, the record of the lock apart. *)
Theorem cache_queries_agree h :
  (getNrFramesCached h).1 = Z.of_nat (length (getCachedFrames h).1) /\
  NoDup (getCachedFrames h).1 /\
  (forall j, j ∈ (getCachedFrames h).1 <-> (isInCache j h).1 = true) /\
  (getNrFramesCached h).2 = (getCachedFrames h).2 /\
  (forall j, (isInCache j h).2 = (getCachedFrames h).2) /\
  (getCachedFrames h).2 =
    log (Unlock imageCacheAccess) (log (Lock imageCacheAccess) h).
Proof.
  open_handler h. unfold contains. repeat split.
  - rewrite length_fmap. f_equal. symmetry. apply length_map_to_list.
  - apply NoDup_fst_map_to_list.
  - intros Hj. apply list_elem_of_fmap in Hj as [[k v] [-> Hkv]].
    apply elem_of_map_to_list in Hkv. cbn. by rewrite Hkv.
  - destruct (cache !! j) as [v|] eqn:E; [|discriminate]. intros _.
    apply list_elem_of_fmap. exists (j, v). split; [reflexivity|].
    by apply elem_of_map_to_list.
Qed.

(** X13.  A call of [cacheFrame] makes the cache grow by one frame when the
    frame was not cached before and is cached after, and leaves the
    number of cached frames as it was in every other case. *)
Theorem cacheFrame_grows_by_one h i :
  let h' := cacheFrame requestFrame me i h in
  (getNrFramesCached h').1 =
    (getNrFramesCached h).1 +
    (if negb (isInCache i h).1 && (isInCache i h').1 then 1 else 0).
Proof.
  cbn zeta. rewrite !isInCache_result. unfold contains.
  assert (N : forall g : @videoHandler P,
             (getNrFramesCached g).1 = Z.of_nat (size (imageCache g))).
  { intros g. open_handler g. reflexivity. }
  rewrite !N.
  destruct (imageCache h !! i) as [img|] eqn:E.
  { rewrite cacheFrame_cached by eauto. autorewrite with handler. cbn. lia. }
  destruct (cachingFramesMutices h !! i) as [m|] eqn:Em.
  { rewrite cacheFrame_in_flight by eauto. autorewrite with handler.
    rewrite E. cbn. lia. }
  destruct (requestFrame i true (producer h) (requestedFrame h)
              (requestedFrame_idx h)) as [[p' img'] idx'] eqn:Ep.
  destruct (cacheFrame_miss h i _ _ _ E Em Ep) as (Hc & _).
  rewrite Hc. destruct (isNull (decoded i img' idx')).
  - rewrite E. cbn. lia.
  - rewrite lookup_insert_eq, map_size_insert_None by assumption. cbn. lia.
Qed.

(** *** Drawing after an invalidation *)

(** The handler that [invalidateAllBuffers] leaves. *)
Lemma invalidateAllBuffers_eq h :
  invalidateAllBuffers h =
  mkHandler QImage_null (-1) (-1) (loadingInBackground h) (frameSize h) ∅
    (cachingFramesMutices h) (requestedFrame h) (-1) (cachingTimer h)
    (producer h) (nextTimerId h)
    (trace h ++ [Emit signalUpdateFrameLimits; Lock imageCacheAccess;
                 Unlock imageCacheAccess]).
Proof.
  open_handler h. unfold invalidateAllBuffers, clearCache, emit. cbn.
  f_equal. rewrite <- !app_assoc. reflexivity.
Qed.

(** A frame that has to be loaded in the foreground costs one request,
    whether the producer answers it or not. *)
Lemma drawFrame_asks_once h i zoomFactor :
  i <> currentImageIdx h ->
  imageCache h !! i = None ->
  cachingFramesMutices h !! i = None ->
  requestedFrame_idx h <> i ->
  exists h',
    drawFrame requestFrame i zoomFactor h = Some h' /\
    count (is_emit (signalRequestFrame i false)) (since h h') = 1%nat /\
    count is_request (since h h') = 1%nat /\
    (currentImageIdx h' = i /\ loadingInBackground h' = false \/
     currentImageIdx h' = currentImageIdx h /\
     currentImage h' = currentImage h /\
     loadingInBackground h' = true /\
     In (DrawImage (videoRect (frameSize h) zoomFactor) (currentImage h))
        (since h h')).
Proof.
  intros Hc E Em Hr.
  assert (Hc' : (currentImageIdx h =? i) = false) by (apply Z.eqb_neq; congruence).
  apply Z.eqb_neq in Hc, Hr.
  open_handler h. unfold_drawFrame. cbn.
  rewrite Hc. cbn. rewrite E. cbn. rewrite Em. cbn. rewrite Hr. cbn.
  destruct (requestFrame i false p rf rfi) as [[p' img'] idx'] eqn:Ep. cbn.
  destruct (idx' =? i) eqn:Ei; cbn; rewrite ?Z.eqb_refl, ?Hc'; cbn;
    (eexists; split; [reflexivity|]); unfold count;
    destruct (Qle_bool 64 zoomFactor); since_eq;
    rewrite ?bool_decide_eq_true_2 by reflexivity;
    rewrite ?Z.eqb_refl; cbn; repeat split; auto;
    right; repeat split; tauto.
Qed.

(** The trace so far plays no part in what a call does next. *)
Ltac forget_trace :=
  match goal with
  | |- context [mkHandler _ _ _ _ _ _ _ _ _ _ _ _ (?t ++ ?l)] =>
      generalize (t ++ l); intro
  end.

(** X14.  After [invalidateAllBuffers] nothing of what was cached or buffered
    is used again: the first [drawFrame] for a frame asks the producer,
    once.  If the producer answers, the frame is shown; if not, the null
    image is painted and [loadingInBackground] is set. *)
Theorem invalidateAllBuffers_then_drawFrame h i zoomFactor :
  i <> -1 ->
  cachingFramesMutices h !! i = None ->
  let h0 := invalidateAllBuffers h in
  exists h',
    drawFrame requestFrame i zoomFactor h0 = Some h' /\
    count (is_emit (signalRequestFrame i false)) (since h0 h') = 1%nat /\
    count is_request (since h0 h') = 1%nat /\
    (currentImageIdx h' = i /\ loadingInBackground h' = false \/
     currentImageIdx h' = -1 /\ currentImage h' = QImage_null /\
     loadingInBackground h' = true /\
     In (DrawImage (videoRect (frameSize h) zoomFactor) QImage_null)
        (since h0 h')).
Proof.
  intros Hi Em. cbn zeta. rewrite invalidateAllBuffers_eq.
  apply drawFrame_asks_once; cbn; auto.
Qed.

(** X15.  The index -1 is what [invalidateAllBuffers] leaves as the index of
    the current frame, so [drawFrame] for -1 takes the null image as up
    to date: it paints it, asks nobody and reports no loading. *)
Theorem invalidateAllBuffers_then_draw_invalid h zoomFactor :
  let h0 := invalidateAllBuffers h in
  exists h',
    drawFrame requestFrame (-1) zoomFactor h0 = Some h' /\
    currentImage h' = QImage_null /\
    loadingInBackground h' = false /\
    count is_request (since h0 h') = 0%nat /\
    In (DrawImage (videoRect (frameSize h) zoomFactor) QImage_null)
       (since h0 h').
Proof.
  cbn zeta. rewrite invalidateAllBuffers_eq. open_handler h. forget_trace.
  unfold_drawFrame. cbn.
  eexists; split; [reflexivity|].
  destruct (Qle_bool 64 zoomFactor); since_eq; repeat split; auto.
Qed.

Section StaleBuffer.

(** [frameHandler::slotVideoControlChanged]. *)
Variable base_slot : @videoHandler P -> @videoHandler P.

(** X16.  [slotVideoControlChanged] does not reset the request buffer: when
    the buffer holds frame [i] after the base class has run, the next
    [drawFrame] for [i] shows the image of the buffer, decoded before
    the change, and the producer is not asked. *)
Theorem slotVideoControlChanged_then_drawFrame h i zoomFactor :
  i <> -1 ->
  requestedFrame_idx (base_slot h) = i ->
  cachingFramesMutices (base_slot h) !! i = None ->
  let h1 := slotVideoControlChanged base_slot h in
  exists h',
    drawFrame requestFrame i zoomFactor h1 = Some h' /\
    currentImage h' = requestedFrame (base_slot h) /\
    currentImageIdx h' = i /\
    loadingInBackground h' = false /\
    count is_request (since h1 h') = 0%nat.
Proof.
  intros Hi Hr Em. cbn zeta. rewrite slotVideoControlChanged_eq.
  destruct (base_slot h) as [ci cidx cfi lib fs cache reg rf rfi tmr p nt tr].
  cbn in *. apply Z.eqb_neq in Hi. apply Z.eqb_eq in Hr. forget_trace.
  unfold_drawFrame. cbn. rewrite Hi. cbn. rewrite lookup_empty. cbn.
  rewrite Em. cbn. rewrite Hr. cbn.
  rewrite Z.eqb_refl.
  eexists; split; [reflexivity|].
  destruct (Qle_bool 64 zoomFactor); since_eq; repeat split.
Qed.

End StaleBuffer.

(** *** The difference of two items *)

(** [loadFrame] asks the producer exactly when the request buffer holds
    another frame. *)
Lemma loadFrame_trace h i :
  trace (loadFrame requestFrame i h) =
  trace h ++
  (if requestedFrame_idx h =? i then []
   else [Lock requestDataMutex; Emit (signalRequestFrame i false);
         Unlock requestDataMutex]).
Proof.
  open_handler h. unfold loadFrame, emit_signalRequestFrame, producerReturns,
    setRequestedAsCurrent. cbn.
  destruct (rfi =? i) eqn:Hr; cbn; [by rewrite app_nil_r|].
  destruct (requestFrame i false p rf rfi) as [[p' img'] idx']. cbn.
  destruct (idx' =? i); cbn; rewrite <- !app_assoc; reflexivity.
Qed.

Lemma loadFrame_answered h i :
  answers requestFrame i ->
  let h' := loadFrame requestFrame i h in
  currentImageIdx h' = i /\
  requestedFrame_idx h' = i /\
  currentImage h' = requestedFrame h'.
Proof.
  intros Ha. open_handler h. unfold loadFrame, emit_signalRequestFrame,
    producerReturns, setRequestedAsCurrent. cbn.
  destruct (rfi =? i) eqn:Hr; cbn; [apply Z.eqb_eq in Hr; done|].
  destruct (Ha p rf rfi) as (p' & img' & ->). cbn. rewrite Z.eqb_refl. done.
Qed.

Lemma loadFrame_unanswered h i :
  (forall p buf idx, idx <> i -> (requestFrame i false p buf idx).2 <> i) ->
  requestedFrame_idx h <> i ->
  let h' := loadFrame requestFrame i h in
  requestedFrame_idx h' <> i /\
  currentImage h' = currentImage h /\
  currentImageIdx h' = currentImageIdx h.
Proof.
  intros Hn Hr. cbn zeta.
  specialize (Hn (producer h) (requestedFrame h) (requestedFrame_idx h) Hr).
  destruct (requestFrame i false (producer h) (requestedFrame h)
              (requestedFrame_idx h)) as [[p' img'] idx'] eqn:Ep.
  rewrite (loadFrame_deferred_eq h i p' img' idx') by assumption.
  open_handler h. done.
Qed.

Section Difference.

(** [frameHandler::calculateDifference]. *)
Variable base_diff :
  @Peer P -> Z -> @videoHandler P -> QImage * @videoHandler P * @Peer P.

(** X17.  With a producer that answers, [calculateDifference] hands two items
    that both show the frame to the base class.  The second [loadFrame]
    of the first item (line 127) finds the frame in the request buffer
    and costs no request; an item asks the producer at most once. *)
Theorem calculateDifference_loads_both h videoItem2 frame :
  answers requestFrame frame ->
  exists h1 v1,
    calculateDifference requestFrame base_diff (VideoPeer videoItem2) frame h =
      base_diff (VideoPeer v1) frame h1 /\
    currentImageIdx h1 = frame /\
    currentImage h1 = requestedFrame h1 /\
    currentImageIdx v1 = frame /\
    count is_request (since h h1) =
      (if requestedFrame_idx h =? frame then 0%nat else 1%nat) /\
    count is_request (since videoItem2 v1) =
      (if (currentImageIdx videoItem2 =? frame) ||
          (requestedFrame_idx videoItem2 =? frame) then 0%nat else 1%nat).
Proof.
  intros Ha. unfold calculateDifference. eexists _, _.
  split; [reflexivity|].
  split; [apply loadFrame_answered, Ha|].
  split; [apply loadFrame_answered, Ha|].
  split; [|split].
  - destruct (currentImageIdx videoItem2 =? frame) eqn:E; cbn.
    + by apply Z.eqb_eq. + by apply loadFrame_answered.
  - destruct (currentImageIdx h =? frame); cbn.
    + rewrite (since_app _ _ _ (loadFrame_trace h frame)).
      destruct (requestedFrame_idx h =? frame); reflexivity.
    + erewrite since_app; [|rewrite !loadFrame_trace, <- app_assoc; reflexivity].
      destruct (loadFrame_answered h frame Ha) as (_ & -> & _).
      rewrite Z.eqb_refl, app_nil_r.
      destruct (requestedFrame_idx h =? frame); reflexivity.
  - destruct (currentImageIdx videoItem2 =? frame); cbn.
    + unfold since. by rewrite drop_all.
    + rewrite (since_app _ _ _ (loadFrame_trace videoItem2 frame)).
      destruct (requestedFrame_idx videoItem2 =? frame); reflexivity.
Qed.

(** X18.  With a producer that does not answer (it decodes in the background
    and leaves the request buffer on another frame), the first item asks
    twice, the second once, and the base class compares the frames the
    two items showed before: neither shows the frame asked for. *)
Theorem calculateDifference_unanswered h videoItem2 frame :
  (forall p buf idx,
     idx <> frame -> (requestFrame frame false p buf idx).2 <> frame) ->
  currentImageIdx h <> frame ->
  requestedFrame_idx h <> frame ->
  currentImageIdx videoItem2 <> frame ->
  requestedFrame_idx videoItem2 <> frame ->
  exists h1 v1,
    calculateDifference requestFrame base_diff (VideoPeer videoItem2) frame h =
      base_diff (VideoPeer v1) frame h1 /\
    count is_request (since h h1) = 2%nat /\
    count is_request (since videoItem2 v1) = 1%nat /\
    currentImage h1 = currentImage h /\
    currentImageIdx h1 = currentImageIdx h /\
    currentImage v1 = currentImage videoItem2 /\
    currentImageIdx v1 = currentImageIdx videoItem2.
Proof.
  intros Hn Hc Hr Hc2 Hr2. unfold calculateDifference.
  apply Z.eqb_neq in Hc, Hc2. rewrite Hc, Hc2. cbn.
  eexists _, _. split; [reflexivity|].
  destruct (loadFrame_unanswered h frame Hn Hr) as (Hr1 & Hi1 & Hx1).
  destruct (loadFrame_unanswered _ frame Hn Hr1) as (_ & Hi & Hx).
  destruct (loadFrame_unanswered videoItem2 frame Hn Hr2) as (_ & Hi2 & Hx2).
  rewrite Hi, Hx, Hi1, Hx1, Hi2, Hx2.
  erewrite since_app; [|rewrite !loadFrame_trace, <- app_assoc; reflexivity].
  rewrite (since_app _ _ _ (loadFrame_trace videoItem2 frame)).
  apply Z.eqb_neq in Hr, Hr1, Hr2. rewrite Hr, Hr1, Hr2. done.
Qed.

(** X19.  The two items are not treated alike.  A second item that shows the
    frame is handed on as it is; the first item is loaded again although
    it shows the frame, which replaces its image by the request buffer
    or, when the buffer holds another frame, asks the producer. *)
Theorem calculateDifference_reloads_first h videoItem2 frame :
  currentImageIdx h = frame ->
  currentImageIdx videoItem2 = frame ->
  calculateDifference requestFrame base_diff (VideoPeer videoItem2) frame h =
    base_diff (VideoPeer videoItem2) frame (loadFrame requestFrame frame h) /\
  count is_request (since h (loadFrame requestFrame frame h)) =
    (if requestedFrame_idx h =? frame then 0%nat else 1%nat) /\
  (requestedFrame_idx h = frame ->
   currentImage (loadFrame requestFrame frame h) = requestedFrame h).
Proof.
  intros Hc Hc2. unfold calculateDifference.
  apply Z.eqb_eq in Hc, Hc2. rewrite Hc, Hc2. cbn.
  split; [reflexivity|]. rewrite (since_app _ _ _ (loadFrame_trace h frame)).
  split; [destruct (requestedFrame_idx h =? frame); reflexivity|].
  intros Hr. apply Z.eqb_eq in Hr. open_handler h.
  unfold loadFrame, setRequestedAsCurrent. cbn. rewrite Hr. reflexivity.
Qed.

End Difference.

End Calls.

(** ** The single-call properties on concrete inputs *)

Lemma cacheFrames_one_notification_witness :
  let h := Samples.fresh_handler in
  let h1 := cacheFrames Samples.ready 0%nat [1; 2; 3] h in
  count (is_emit cachingTimerStart) (since h h1) = 3%nat /\
  count is_timer_start (since h h1) = 1%nat /\
  isActive (cachingTimer h1) = true /\
  let h2 := timerEvent Samples.base_timerEvent (timerId (cachingTimer h1)) h1 in
  since h1 h2 = [TimerStop (timerId (cachingTimer h1));
                 Emit (signalHandlerChanged false false)] /\
  count is_handler_changed (since h h2) = 1%nat /\
  isActive (cachingTimer h2) = false.
Proof.
  apply (cacheFrames_one_notification Samples.ready 0%nat
           Samples.base_timerEvent Samples.fresh_handler [1; 2; 3]).
  - discriminate.
  - apply NoDup_ListNoDup. repeat constructor; cbn; lia.
  - intros i _. split; apply lookup_empty.
Defined.

(** The spec names the arguments [(false, true)]; no such signal is
    emitted, the one that is has [(false, false)]. *)
Lemma cacheFrames_notification_counterexample :
  let h1 := cacheFrames Samples.ready 0%nat [1; 2; 3] Samples.fresh_handler in
  let h2 := timerEvent Samples.base_timerEvent (timerId (cachingTimer h1)) h1 in
  count (is_emit (signalHandlerChanged false true)) (trace h2) <> 1%nat /\
  count (is_emit (signalHandlerChanged false true)) (trace h2) = 0%nat /\
  count (is_emit (signalHandlerChanged false false)) (trace h2) = 1%nat.
Proof. vm_compute. repeat split; discriminate. Qed.

Lemma removefromCache_post_witness :
  (isInCache 2 (removefromCache 2 Samples.showing_1)).1 = false /\
  (forall j, j <> 2 ->
     imageCache (removefromCache 2 Samples.showing_1) !! j
     = imageCache Samples.showing_1 !! j) /\
  imageCache (removefromCache (-1) Samples.showing_1) = ∅.
Proof. apply (removefromCache_post Samples.showing_1 2). lia. Defined.

Lemma loadFrame_deferred_witness :
  let h := Samples.fresh_handler in
  (currentImage (loadFrame Samples.deferring 3 h) = currentImage h /\
   currentImageIdx (loadFrame Samples.deferring 3 h) = currentImageIdx h) /\
  exists h',
    drawFrame Samples.deferring 3 1%Q h = Some h' /\
    loadingInBackground h' = true /\
    currentImage h' = currentImage h /\
    currentImageIdx h' = currentImageIdx h /\
    In (Emit (signalRequestFrame 3 false)) (since h h').
Proof.
  assert (D : -1 <> 3) by lia.
  pose proof (loadFrame_deferred Samples.deferring Samples.fresh_handler 3 1%Q
                0%nat QImage_null (-1) D eq_refl D) as [H1 H2].
  split; [exact H1|]. apply H2; [exact D|reflexivity|reflexivity].
Defined.

Lemma drawFrame_current_witness :
  let h := Samples.showing_1 in
  exists h',
    drawFrame Samples.ready 1 1%Q h = Some h' /\
    h' = set_loadingInBackground false (mkHandler
           (currentImage h) (currentImageIdx h) (currentImage_frameIndex h)
           (loadingInBackground h) (frameSize h) (imageCache h)
           (cachingFramesMutices h) (requestedFrame h) (requestedFrame_idx h)
           (cachingTimer h) (producer h) (nextTimerId h) (trace h')) /\
    since h h' =
      DrawImage (videoRect (frameSize h) 1%Q) (currentImage h) ::
      (if Qle_bool 64 1%Q
       then [DrawPixelValues 1 (videoRect (frameSize h) 1%Q) 1%Q]
       else []) /\
    count is_mutex_action (since h h') = 0%nat /\
    count is_request (since h h') = 0%nat.
Proof.
  apply (drawFrame_current Samples.ready Samples.showing_1 1 1%Q). reflexivity.
Defined.

(** At zoom 64 the call paints the pixel values as well: the image is not
    all that reaches the painter. *)
Lemma drawFrame_current_counterexample :
  let h := Samples.showing_1 in
  let r := videoRect (frameSize h) 64%Q in
  exists h',
    drawFrame Samples.ready 1 64%Q h = Some h' /\
    since h h' = [DrawImage r (currentImage h); DrawPixelValues 1 r 64%Q] /\
    since h h' <> [DrawImage r (currentImage h)].
Proof. eexists. split; [reflexivity|]. vm_compute. split; [reflexivity|discriminate]. Qed.

(** Frame 2 is cached and frame 1 is on display: drawing frame 2 takes
    it from the cache. *)
Lemma drawFrame_cache_hit_witness :
  exists h',
    drawFrame Samples.ready 2 1%Q Samples.showing_1 = Some h' /\
    currentImage h' = Samples.frame 2 /\
    currentImageIdx h' = 2 /\
    count is_request (since Samples.showing_1 h') = 0%nat.
Proof.
  destruct (drawFrame_cache_hit Samples.ready Samples.showing_1 2 1%Q
              (Samples.frame 2))
    as (h' & Hd & Hi & Hx & _ & _ & _ & _ & Hn & _);
    [vm_compute; discriminate | reflexivity |].
  exists h'. repeat split; assumption.
Defined.

(** Frame 7 is nowhere: the renderer asks the producer and shows what it
    gets. *)
Lemma drawFrame_foreground_load_witness :
  exists h',
    drawFrame Samples.ready 7 1%Q Samples.showing_1 = Some h' /\
    currentImage h' = Samples.frame 7 /\
    currentImageIdx h' = 7 /\
    count is_request (since Samples.showing_1 h') = 1%nat.
Proof.
  destruct (drawFrame_foreground_load Samples.ready Samples.showing_1 7 1%Q
              1%nat (Samples.frame 7))
    as (h' & Hd & Hi & Hx & _ & _ & _ & _ & Hn & _);
    [vm_compute; discriminate | reflexivity | reflexivity
    | vm_compute; discriminate | reflexivity |].
  exists h'. repeat split; assumption.
Defined.

(** Frame 5 was requested last: drawing it uses the buffer. *)
Lemma drawFrame_reuses_buffer_witness :
  exists h',
    drawFrame Samples.deferring 5 1%Q Samples.showing_1 = Some h' /\
    currentImage h' = Samples.frame 5 /\
    currentImageIdx h' = 5 /\
    count is_request (since Samples.showing_1 h') = 0%nat.
Proof.
  destruct (drawFrame_reuses_buffer Samples.deferring Samples.showing_1 5 1%Q)
    as (h' & Hd & Hi & Hx & _ & _ & Hn & _);
    [vm_compute; discriminate | reflexivity | reflexivity | reflexivity |].
  exists h'. repeat split; assumption.
Defined.

Lemma loadFrame_success_witness :
  let h' := loadFrame Samples.ready 7 Samples.showing_1 in
  currentImage h' = Samples.frame 7 /\
  currentImageIdx h' = 7 /\
  loadFrame Samples.ready 7 h' = h'.
Proof.
  destruct (loadFrame_success Samples.ready Samples.showing_1 7 1%nat
              (Samples.frame 7))
    as (Hi & Hx & _ & _ & _ & _ & Hs);
    [vm_compute; discriminate | reflexivity |].
  repeat split; assumption.
Defined.

(** The producer defers the request for frame 3: nothing is cached, and
    the next call asks again. *)
Lemma cacheFrame_failed_witness :
  let h := Samples.fresh_handler in
  let h' := cacheFrame Samples.deferring 0%nat 3 h in
  imageCache h' = imageCache h /\
  (isInCache 3 h').1 = false /\
  count is_request (since h h') = 1%nat /\
  count is_request (since h' (cacheFrame Samples.deferring 0%nat 3 h')) = 1%nat.
Proof.
  destruct (cacheFrame_failed Samples.deferring 0%nat Samples.fresh_handler 3
              0%nat QImage_null (-1))
    as (Hc & _ & Hi & Hn & _ & _ & Hn2);
    [reflexivity | reflexivity | reflexivity | reflexivity |].
  repeat split; assumption.
Defined.

Lemma cacheFrame_then_drawFrame_witness :
  exists h',
    drawFrame Samples.ready 3 1%Q
      (cacheFrame Samples.ready 0%nat 3 Samples.fresh_handler) = Some h' /\
    currentImage h' = Samples.frame 3 /\
    count is_request (since Samples.fresh_handler h') = 1%nat /\
    count (is_emit (signalRequestFrame 3 false))
      (since Samples.fresh_handler h') = 0%nat.
Proof.
  destruct (cacheFrame_then_drawFrame Samples.ready 0%nat Samples.fresh_handler
              3 1%Q 1%nat (Samples.frame 3))
    as (h' & Hd & Hi & _ & _ & Hn & Hf & _);
    [vm_compute; discriminate | reflexivity | reflexivity | reflexivity
    | reflexivity |].
  exists h'. repeat split; assumption.
Defined.

Lemma cacheFrame_then_removefromCache_witness :
  let h := Samples.fresh_handler in
  let h2 := removefromCache 3 (cacheFrame Samples.ready 0%nat 3 h) in
  imageCache h2 = imageCache h /\
  count is_timer_start (since h h2) = 1%nat.
Proof.
  destruct (cacheFrame_then_removefromCache Samples.ready 0%nat
              Samples.fresh_handler 3)
    as (Hc & _ & _ & _ & _ & Hn); [vm_compute; discriminate | reflexivity |].
  split; assumption.
Defined.

(** Frame 1 was on display and in the cache; after the invalidation the
    renderer asks for it again. *)
Lemma invalidateAllBuffers_then_drawFrame_witness :
  exists h',
    drawFrame Samples.ready 1 1%Q (invalidateAllBuffers Samples.showing_1)
      = Some h' /\
    count is_request (since (invalidateAllBuffers Samples.showing_1) h') = 1%nat.
Proof.
  destruct (invalidateAllBuffers_then_drawFrame Samples.ready Samples.showing_1
              1 1%Q)
    as (h' & Hd & _ & Hn & _); [vm_compute; discriminate | reflexivity |].
  exists h'. split; assumption.
Defined.

(** Frame 5 is in the request buffer when the control changes: the
    renderer shows the old image of frame 5. *)
Lemma slotVideoControlChanged_then_drawFrame_witness :
  let h1 := slotVideoControlChanged Samples.base_slot Samples.showing_1 in
  exists h',
    drawFrame Samples.ready 5 1%Q h1 = Some h' /\
    currentImage h' = Samples.frame 5 /\
    count is_request (since h1 h') = 0%nat.
Proof.
  destruct (slotVideoControlChanged_then_drawFrame Samples.ready
              Samples.base_slot Samples.showing_1 5 1%Q)
    as (h' & Hd & Hi & _ & _ & Hn);
    [vm_compute; discriminate | reflexivity | reflexivity |].
  exists h'. repeat split; assumption.
Defined.

Lemma ready_answers i : answers Samples.ready i.
Proof. intros p buf idx. exists (S p), (Samples.frame i). reflexivity. Qed.

Lemma deferring_unanswered i p buf idx :
  idx <> i -> (Samples.deferring i false p buf idx).2 <> i.
Proof. intros H. exact H. Qed.

Lemma calculateDifference_loads_both_witness :
  exists h1 v1,
    calculateDifference Samples.ready Samples.base_diff
      (VideoPeer Samples.fresh_handler) 3 Samples.showing_1 =
      Samples.base_diff (VideoPeer v1) 3 h1 /\
    currentImageIdx h1 = 3 /\
    currentImageIdx v1 = 3 /\
    count is_request (since Samples.showing_1 h1) = 1%nat /\
    count is_request (since Samples.fresh_handler v1) = 1%nat.
Proof.
  destruct (calculateDifference_loads_both Samples.ready Samples.base_diff
              Samples.showing_1 Samples.fresh_handler 3 (ready_answers 3))
    as (h1 & v1 & Hd & Hx & _ & Hv & Hn & Hn2).
  exists h1, v1. repeat split; assumption.
Defined.

Lemma calculateDifference_unanswered_witness :
  exists h1 v1,
    calculateDifference Samples.deferring Samples.base_diff
      (VideoPeer Samples.fresh_handler) 3 Samples.showing_1 =
      Samples.base_diff (VideoPeer v1) 3 h1 /\
    count is_request (since Samples.showing_1 h1) = 2%nat /\
    count is_request (since Samples.fresh_handler v1) = 1%nat /\
    currentImageIdx h1 = 1 /\
    currentImageIdx v1 = -1.
Proof.
  destruct (calculateDifference_unanswered Samples.deferring Samples.base_diff
              Samples.showing_1 Samples.fresh_handler 3
              (deferring_unanswered 3))
    as (h1 & v1 & Hd & Hn & Hn2 & _ & Hx & _ & Hv);
    [vm_compute; discriminate | vm_compute; discriminate
    | vm_compute; discriminate | vm_compute; discriminate |].
  exists h1, v1. repeat split; assumption.
Defined.

(** Both items show frame 1; the first one has frame 5 in its request
    buffer and asks the producer for frame 1 again. *)
Lemma calculateDifference_reloads_first_witness :
  calculateDifference Samples.ready Samples.base_diff
    (VideoPeer Samples.showing_1) 1 Samples.showing_1 =
    Samples.base_diff (VideoPeer Samples.showing_1) 1
      (loadFrame Samples.ready 1 Samples.showing_1) /\
  count is_request
    (since Samples.showing_1 (loadFrame Samples.ready 1 Samples.showing_1))
    = 1%nat.
Proof.
  destruct (calculateDifference_reloads_first Samples.ready Samples.base_diff
              Samples.showing_1 Samples.showing_1 1)
    as (Hd & Hn & _); [reflexivity | reflexivity |].
  split; assumption.
Defined.

(** ** Properties of interleaved calls *)

Section Threads.
Context {P : Type}.
Variable requestFrame : Z -> bool -> P -> QImage -> Z -> P * QImage * Z.
Implicit Types s : @System P.

Ltac open_system s :=
  let h := fresh "h" in
  destruct s as [h ow ths];
  destruct h as [ci cidx cfi lib fs cache reg rf rfi tmr p nt tr].

(** One case per statement a thread can be at. *)
Ltac step_cases I Hstep :=
  match type of Hstep with
  | step _ ?t ?s = Some ?s' =>
      unfold step in Hstep;
      let th := fresh "th" in
      let Ht := fresh "Ht" in
      destruct (threads s !! t) as [th|] eqn:Ht; [|discriminate];
      cbn [mbind option_bind] in Hstep;
      let i := fresh "i" in let pc := fresh "pc" in
      destruct th as [i pc ?img|i ?z pc]; destruct pc;
      open_system s; cbn in Hstep, Ht;
      unfold acquire, contains, promoteCached, producerReturns, emit_cachingTimerStart,
        on_cachingTimerStart, QBasicTimer_start, QBasicTimer_stop, drawCurrent,
        drawPixelValues, registerFrameMutex, unlockFrameMutex, takeFrameMutex,
        setRequestedAsCurrent in Hstep;
      cbn in Hstep;
      repeat match type of Hstep with
        | context [match ?x with _ => _ end] =>
            lazymatch x with
            | context [match _ with _ => _ end] => fail
            | _ => destruct x eqn:?; cbn in Hstep
            end
        end;
      try discriminate; injection Hstep as <-
  end.


Ltac split_thread u t Hu :=
  destruct (decide (u = t)) as [->|?];
  [rewrite list_lookup_insert_eq in Hu by (eapply lookup_lt_Some; eassumption);
   injection Hu as <-
  |rewrite list_lookup_insert_ne in Hu by congruence].

Ltac old_facts I t Ht :=
  let F := fresh "F" in
  pose proof (inv_mutex _ I imageCacheAccess t _ Ht) as F; cbn in F;
  let F := fresh "F" in
  pose proof (inv_mutex _ I cachingFramesMuticesAccess t _ Ht) as F; cbn in F;
  let F := fresh "F" in
  pose proof (inv_mutex _ I requestDataMutex t _ Ht) as F; cbn in F;
  let F := fresh "F" in
  pose proof (fun k => inv_latched _ I t _ k Ht) as F; cbn in F;
  let F := fresh "F" in
  pose proof (fun k => inv_registered _ I t _ k Ht) as F; cbn in F;
  let F := fresh "F" in
  pose proof (fun k => inv_registering _ I t _ k Ht) as F; cbn in F.


Ltac use_eq :=
  repeat match goal with
         | F : forall k, Some ?a = Some k -> _ |- _ => specialize (F _ eq_refl)
         | F : ?a = ?a -> _ |- _ => specialize (F eq_refl)
         | F : forall k, None = Some k -> _ |- _ => clear F
         | F : false = true -> _ |- _ => clear F
         end.

Lemma latched_cases th k :
  latched th = Some k ->
  registered th = Some k \/ holds cachingFramesMuticesAccess th = true.
Proof. destruct th as [i pc img|i z pc]; destruct pc; cbn; intros; simplify_eq; auto. Qed.

Lemma registering_holds th k :
  registering th = Some k -> holds cachingFramesMuticesAccess th = true.
Proof. destruct th as [i pc img|i z pc]; destruct pc; cbn; intros; simplify_eq; auto. Qed.

Lemma step_keeps_mutex s t s' :
  invariant s -> step requestFrame t s = Some s' ->
  forall m u th, threads s' !! u = Some th -> holds m th = true ->
    owner s' m = Some u.
Proof.
  intros I Hstep. step_cases I Hstep.
  all: intros m u thu Hu Hh; cbn in Hu; cbn.
  all: old_facts I t Ht.
  all: split_thread u t Hu.
  all: try (destruct m; cbn in Hh; try discriminate; cbn; (reflexivity || auto); fail).
  all: pose proof (inv_mutex _ I m u _ Hu Hh) as G; cbn in G;
       destruct m; cbn; try assumption; try congruence; use_eq; congruence.
Qed.

Lemma step_keeps_latched s t s' :
  invariant s -> step requestFrame t s = Some s' ->
  forall u th k, threads s' !! u = Some th -> latched th = Some k ->
    cachingFramesMutices (handler s') !! k = Some (Some u).
Proof.
  intros I Hstep. step_cases I Hstep.
  all: intros u thu k Hu Hl; cbn in Hu; cbn.
  all: old_facts I t Ht.
  all: split_thread u t Hu.
  all: try (cbn in Hl; simplify_eq; rewrite ?lookup_insert_eq; auto; fail).
  all: pose proof (inv_latched _ I u _ _ Hu Hl) as G; cbn in G.
  all: try assumption.
  all: try (rewrite lookup_insert_ne; [assumption|]; intros <-; use_eq; congruence).
  (* line 197: nobody else holds the mutex that is taken out *)
  rewrite lookup_delete_ne; [assumption|]. intros <-.
  destruct (latched_cases _ _ Hl) as [Hr|Hm].
  - pose proof (inv_unique _ I u t _ _ _ Hu Ht Hr eq_refl). congruence.
  - pose proof (inv_mutex _ I _ u _ Hu Hm) as G'. cbn in G'. use_eq. congruence.
Qed.

Lemma step_keeps_registered s t s' :
  invariant s -> step requestFrame t s = Some s' ->
  forall u th k, threads s' !! u = Some th -> registered th = Some k ->
    is_Some (cachingFramesMutices (handler s') !! k).
Proof.
  intros I Hstep. step_cases I Hstep.
  all: intros u thu k Hu Hl; cbn in Hu; cbn.
  all: old_facts I t Ht.
  all: split_thread u t Hu.
  all: try (cbn in Hl; simplify_eq; rewrite ?lookup_insert_eq; use_eq; eauto; fail).
  all: pose proof (inv_registered _ I u _ _ Hu Hl) as G; cbn in G.
  all: try assumption.
  all: try (rewrite lookup_insert_is_Some; destruct (decide (i = k)); auto; fail).
  rewrite lookup_delete_ne; [assumption|]. intros <-.
  pose proof (inv_unique _ I u t _ _ _ Hu Ht Hl eq_refl). congruence.
Qed.

Lemma step_keeps_registering s t s' :
  invariant s -> step requestFrame t s = Some s' ->
  forall u th k, threads s' !! u = Some th -> registering th = Some k ->
    cachingFramesMutices (handler s') !! k = None.
Proof.
  intros I Hstep. step_cases I Hstep.
  all: intros u thu k Hu Hl; cbn in Hu; cbn.
  all: old_facts I t Ht.
  all: split_thread u t Hu.
  all: try (cbn in Hl; simplify_eq; auto; fail).
  all: pose proof (inv_registering _ I u _ _ Hu Hl) as G; cbn in G.
  all: try assumption.
  all: pose proof (inv_mutex _ I _ u _ Hu (registering_holds _ _ Hl)) as G'; cbn in G'.
  all: use_eq; try congruence.
  rewrite lookup_insert_ne; [assumption|]. intros <-. congruence.
Qed.

Lemma step_keeps_unique s t s' :
  invariant s -> step requestFrame t s = Some s' ->
  forall u1 u2 th1 th2 k,
    threads s' !! u1 = Some th1 -> threads s' !! u2 = Some th2 ->
    registered th1 = Some k -> registered th2 = Some k -> u1 = u2.
Proof.
  intros I Hstep. step_cases I Hstep.
  all: intros u1 u2 th1 th2 k Hu1 Hu2 Hr1 Hr2; cbn in Hu1, Hu2.
  all: old_facts I t Ht.
  all: split_thread u1 t Hu1; split_thread u2 t Hu2; try reflexivity.
  all: try (eapply (inv_unique _ I); eassumption).
  all: try (cbn in Hr1; discriminate).
  all: try (cbn in Hr2; discriminate).
  all: exfalso.
  all: try (cbn in Hr1; simplify_eq;
            first [ pose proof (inv_unique _ I t u2 _ _ _ Ht Hu2 eq_refl Hr2); congruence
                  | pose proof (inv_registered _ I u2 _ _ Hu2 Hr2) as [? G]; cbn in G;
                    use_eq; congruence ]).
  all: try (cbn in Hr2; simplify_eq;
            first [ pose proof (inv_unique _ I t u1 _ _ _ Ht Hu1 eq_refl Hr1); congruence
                  | pose proof (inv_registered _ I u1 _ _ Hu1 Hr1) as [? G]; cbn in G;
                    use_eq; congruence ]).
Qed.

Ltac entry_old I t Ht Hlen Hk :=
  let u := fresh "u" in let thu := fresh "thu" in
  let Hu := fresh "Hu" in let Hr := fresh "Hr" in
  destruct (inv_entry _ I _ Hk) as (u & thu & Hu & Hr); cbn in Hu;
  destruct (decide (u = t)) as [->|?];
  [ rewrite Ht in Hu; injection Hu as <-; cbn in Hr; simplify_eq;
    try (eexists t, _; split; [apply list_lookup_insert_eq, Hlen | reflexivity])
  | exists u, thu; split;
    [rewrite list_lookup_insert_ne by congruence; assumption | assumption] ].

Lemma step_keeps_entry s t s' :
  invariant s -> step requestFrame t s = Some s' ->
  forall k, is_Some (cachingFramesMutices (handler s') !! k) ->
    exists u th, threads s' !! u = Some th /\ registered th = Some k.
Proof.
  intros I Hstep. step_cases I Hstep.
  all: intros k Hk; cbn in Hk; cbn.
  all: old_facts I t Ht; use_eq.
  all: assert (Hlen : (t < length ths)%nat) by (eapply lookup_lt_Some; eassumption).
  all: try (entry_old I t Ht Hlen Hk; fail).
  all: try (rewrite lookup_delete_is_Some in Hk; destruct Hk as [Hik Hk];
            entry_old I t Ht Hlen Hk; fail).
  all: rewrite lookup_insert_is_Some in Hk; destruct Hk as [<-|[Hik Hk]];
       [|entry_old I t Ht Hlen Hk].
  all: try (eexists t, _; split; [apply list_lookup_insert_eq, Hlen | reflexivity]; fail).
  all: match goal with
       | F : ?reg !! ?j = Some _ |- context [registered _ = Some ?j] =>
           assert (Hk : is_Some (reg !! j)) by (rewrite F; eauto)
       end; entry_old I t Ht Hlen Hk.
Qed.

Lemma step_keeps_undecoded s t s' :
  invariant s -> step requestFrame t s = Some s' ->
  forall u th, threads s' !! u = Some th -> undecoded th = true ->
    local_image th = QImage_null.
Proof.
  intros I Hstep. step_cases I Hstep.
  all: intros u thu Hu Hy; cbn in Hu.
  all: pose proof (inv_undecoded _ I t _ Ht) as F; cbn in F.
  all: split_thread u t Hu.
  all: try (eapply (inv_undecoded _ I); eassumption).
  all: try (cbn in Hy; try discriminate; cbn; auto; fail).
Qed.

Lemma step_keeps_inserted s t s' :
  invariant s -> step requestFrame t s = Some s' ->
  forall u th k, threads s' !! u = Some th -> inserted th = Some k ->
    is_Some (imageCache (handler s') !! k).
Proof.
  intros I Hstep. step_cases I Hstep.
  all: intros u thu k Hu Hk; cbn in Hu; cbn.
  all: pose proof (fun k => inv_inserted _ I t _ k Ht) as F; cbn in F.
  all: split_thread u t Hu.
  all: try (pose proof (inv_inserted _ I u _ _ Hu Hk) as G; cbn in G;
            first [assumption | rewrite lookup_insert_is_Some;
                   destruct (decide (i = k)); auto]; fail).
  all: try (cbn in Hk; try discriminate; auto; fail).
  all: pose proof (inv_undecoded _ I t _ Ht) as U; cbn in U; use_eq; subst.
  all: cbn in Hk; try discriminate.
  all: repeat match type of Hk with
              | context [if ?b then _ else _] => destruct b eqn:?
              end; simplify_eq.
  all: rewrite ?lookup_insert_eq; eauto.
Qed.

Lemma step_invariant s t s' :
  invariant s -> step requestFrame t s = Some s' -> invariant s'.
Proof.
  intros I Hstep. constructor.
  - eapply step_keeps_mutex; eassumption.
  - eapply step_keeps_latched; eassumption.
  - eapply step_keeps_registered; eassumption.
  - eapply step_keeps_registering; eassumption.
  - eapply step_keeps_unique; eassumption.
  - eapply step_keeps_entry; eassumption.
  - eapply step_keeps_undecoded; eassumption.
  - eapply step_keeps_inserted; eassumption.
Qed.

Lemma fresh_classified th :
  fresh th ->
  (forall m, holds m th = false) /\ latched th = None /\ registered th = None /\
  registering th = None /\ inserted th = None /\ local_image th = QImage_null /\
  unregistering th = None /\ waiting_done th = None.
Proof.
  destruct th as [i pc img|i z pc]; cbn.
  - intros [-> ->]. repeat split. by intros [].
  - intros ->. repeat split. by intros [].
Qed.

Lemma quiescent_invariant s : quiescent s -> invariant s.
Proof.
  intros (Hreg & Hown & Hfresh).
  assert (F : forall t th, threads s !! t = Some th -> fresh th).
  { intros t th Ht. eapply Forall_lookup_1; eassumption. }
  constructor.
  - intros m t th Ht Hh. destruct (fresh_classified _ (F _ _ Ht)) as (H1 & _).
    rewrite H1 in Hh. discriminate.
  - intros t th i Ht Hh. destruct (fresh_classified _ (F _ _ Ht)) as (_ & H1 & _).
    congruence.
  - intros t th i Ht Hh. destruct (fresh_classified _ (F _ _ Ht)) as (_ & _ & H1 & _).
    congruence.
  - intros t th i Ht Hh. rewrite Hreg. apply lookup_empty.
  - intros t1 t2 th1 th2 i Ht _ Hh.
    destruct (fresh_classified _ (F _ _ Ht)) as (_ & _ & H1 & _). congruence.
  - intros i. rewrite Hreg, lookup_empty. by intros [? ?].
  - intros t th Ht _. apply (fresh_classified _ (F _ _ Ht)).
  - intros t th i Ht Hh.
    destruct (fresh_classified _ (F _ _ Ht)) as (_ & _ & _ & _ & H1 & _). congruence.
Qed.

Lemma reachable_invariant s0 s :
  quiescent s0 -> reachable requestFrame s0 s -> invariant s.
Proof.
  intros Hq Hr. induction Hr as [|s t s' _ IH Hstep].
  - by apply quiescent_invariant.
  - eapply step_invariant; eassumption.
Qed.

Lemma run_reachable sched : forall s0 s s',
  reachable requestFrame s0 s -> run requestFrame sched s = Some s' ->
  reachable requestFrame s0 s'.
Proof.
  induction sched as [|t sched IH]; intros s0 s s' Hr Hrun; cbn in Hrun.
  - by simplify_eq.
  - destruct (step requestFrame t s) as [s1|] eqn:E; [|done]. cbn in Hrun.
    eapply IH; [|eassumption]. econstructor; eassumption.
Qed.

(** *** The image in the cache *)

Lemma kept_registered th k : kept th = Some k -> registered th = Some k.
Proof. destruct th as [i pc img|i z pc]; destruct pc; cbn; intros; simplify_eq; auto. Qed.

Lemma step_keeps_pending s t s' :
  invariant s -> invariant_image s -> step requestFrame t s = Some s' ->
  forall u th, threads s' !! u = Some th -> pending th = true ->
    isNull (local_image th) = false.
Proof.
  intros I J Hstep. step_cases I Hstep.
  all: intros u thu Hu Hp; cbn in Hu.
  all: pose proof (img_pending _ J t _ Ht) as F; cbn in F.
  all: split_thread u t Hu.
  all: try exact (img_pending _ J _ _ Hu Hp).
  all: try (cbn in Hp; try discriminate; cbn; auto; fail).
  all: cbn; apply negb_true_iff; assumption.
Qed.

Lemma step_keeps_kept s t s' :
  invariant s -> invariant_image s -> step requestFrame t s = Some s' ->
  forall u th k, threads s' !! u = Some th -> kept th = Some k ->
    isNull (local_image th) = false ->
    imageCache (handler s') !! k = Some (local_image th).
Proof.
  intros I J Hstep. step_cases I Hstep.
  all: intros u thu k Hu Hk Hn; cbn in Hu; cbn.
  all: pose proof (fun k => img_kept _ J t _ k Ht) as F; cbn in F.
  all: split_thread u t Hu.
  all: try (cbn in Hk; simplify_eq; cbn in Hn |- *;
            first [ apply lookup_insert_eq | solve [apply F; auto] | congruence
                  | match goal with
                    | H : negb (isNull _) = false |- _ =>
                        apply negb_false_iff in H; congruence
                    end ]; fail).
  all: pose proof (img_kept _ J u _ _ Hu Hk Hn) as G; cbn in G; try assumption.
  rewrite lookup_insert_ne; [assumption|]. intros <-.
  pose proof (inv_unique _ I u t _ _ _ Hu Ht (kept_registered _ _ Hk) eq_refl).
  congruence.
Qed.

Lemma reachable_invariant_image s0 s :
  quiescent s0 -> reachable requestFrame s0 s -> invariant_image s.
Proof.
  intros Hq Hr. induction Hr as [|s t s' Hr IH Hstep].
  - destruct Hq as (_ & _ & Hfresh).
    assert (F : forall t th, threads s0 !! t = Some th -> fresh th).
    { intros t th Ht. eapply Forall_lookup_1; eassumption. }
    constructor.
    + intros t th Ht Hp. specialize (F _ _ Ht).
      destruct th as [i pc img|i z pc]; [|discriminate].
      destruct F as [-> _]. discriminate.
    + intros t th i Ht Hk. specialize (F _ _ Ht).
      destruct th as [k pc img|k z pc]; [|discriminate].
      destruct F as [-> _]. discriminate.
  - pose proof (reachable_invariant _ _ Hq Hr) as I. constructor.
    + eapply step_keeps_pending; eassumption.
    + eapply step_keeps_kept; eassumption.
Qed.

(** A worker that is past its insertion keeps its image to the end of the
    call. *)
Lemma inserted_stays s t s' w th i :
  threads s !! w = Some th -> inserted th = Some i ->
  step requestFrame t s = Some s' ->
  exists th', threads s' !! w = Some th' /\ inserted th' = Some i /\
              local_image th' = local_image th.
Proof.
  intros Hw Hi Hstep. assert (I : True) by exact Logic.I. step_cases I Hstep.
  all: cbn in Hw; cbn.
  all: assert (Hlen : (t < length ths)%nat) by (eapply lookup_lt_Some; eassumption).
  all: destruct (decide (w = t)) as [->|Hne];
       [ rewrite Ht in Hw; injection Hw as <-; cbn in Hi; try discriminate;
         try (eexists; split; [apply list_lookup_insert_eq, Hlen|];
              split; [exact Hi|reflexivity])
       | exists th; rewrite list_lookup_insert_ne by congruence; auto ].
Qed.

(** An entry of the cache changes only when a worker for that frame
    inserts its decoded image (line 191). *)
Lemma step_cache_mono s t s' i img :
  invariant_image s -> step requestFrame t s = Some s' ->
  imageCache (handler s) !! i = Some img ->
  imageCache (handler s') !! i = Some img \/
  exists th th',
    threads s !! t = Some th /\ pending th = true /\
    threads s' !! t = Some th' /\ inserted th' = Some i /\
    imageCache (handler s') !! i = Some (local_image th').
Proof.
  intros J Hstep Hc. assert (I : True) by exact Logic.I. step_cases I Hstep.
  all: cbn in Hc; cbn.
  all: try (left; assumption).
  (* line 191 *)
  assert (Hlen : (t < length ths)%nat) by (eapply lookup_lt_Some; eassumption).
  pose proof (img_pending _ J t _ Ht eq_refl) as Hn. cbn in Hn.
  destruct (decide (i0 = i)) as [->|Hne].
  - right. eexists _, _. split; [reflexivity|]. split; [reflexivity|].
    split; [apply list_lookup_insert_eq, Hlen|]. cbn. rewrite Hn.
    split; [reflexivity|]. apply lookup_insert_eq.
  - left. rewrite lookup_insert_ne by assumption. assumption.
Qed.

Lemma pending_not_inserted th i : pending th = true -> inserted th = Some i -> False.
Proof. destruct th as [k pc img|k z pc]; destruct pc; cbn; intros; simplify_eq. Qed.

Lemma inserted_since_step s t s' w thw i :
  invariant_image s ->
  threads s !! w = Some thw -> inserted thw = Some i ->
  inserted_since w i (local_image thw) s ->
  step requestFrame t s = Some s' ->
  inserted_since w i (local_image thw) s'.
Proof.
  intros J Hw Hi (img' & Hc & Hor) Hstep.
  destruct (step_cache_mono _ _ _ _ _ J Hstep Hc)
    as [Hc'|(th & th' & Ht & Hp & Ht' & Hi' & Hc')].
  - exists img'. split; [assumption|].
    destruct Hor as [->|(w' & th' & Hne & Hw' & Hi' & Hl')]; [by left|].
    right. destruct (inserted_stays _ _ _ _ _ _ Hw' Hi' Hstep)
      as (th2 & Hw2 & Hi2 & Hl2).
    exists w', th2. repeat split; try assumption. congruence.
  - exists (local_image th'). split; [assumption|]. right.
    exists t, th'. repeat split; try assumption.
    intros ->. rewrite Hw in Ht. injection Ht as <-.
    exact (pending_not_inserted _ _ Hp Hi).
Qed.

Lemma inserted_since_run sched : forall s s' w thw i,
  invariant s -> invariant_image s ->
  threads s !! w = Some thw -> inserted thw = Some i ->
  inserted_since w i (local_image thw) s ->
  run requestFrame sched s = Some s' ->
  inserted_since w i (local_image thw) s'.
Proof.
  induction sched as [|t sched IH]; intros s s' w thw i I J Hw Hi Hs Hrun;
    cbn in Hrun.
  - by simplify_eq.
  - destruct (step requestFrame t s) as [s1|] eqn:E; [|done]. cbn in Hrun.
    destruct (inserted_stays _ _ _ _ _ _ Hw Hi E) as (th1 & Hw1 & Hi1 & Hl1).
    rewrite <- Hl1. apply (IH s1 s' w th1 i); try assumption.
    + exact (step_invariant _ _ _ I E).
    + constructor.
      * exact (step_keeps_pending _ _ _ I J E).
      * exact (step_keeps_kept _ _ _ I J E).
    + rewrite Hl1. exact (inserted_since_step _ _ _ _ _ _ J Hw Hi Hs E).
Qed.

(** A thread stays a worker for the frame it was called with. *)
Lemma worker_frame_step s t s' u i pc img :
  step requestFrame t s = Some s' ->
  threads s' !! u = Some (Caching i pc img) ->
  exists pc0 img0, threads s !! u = Some (Caching i pc0 img0).
Proof.
  intros Hstep Hu. assert (I : True) by exact Logic.I. step_cases I Hstep.
  all: cbn in Hu; cbn.
  all: destruct (decide (u = t)) as [->|Hne];
       [ rewrite list_lookup_insert_eq in Hu
           by (eapply lookup_lt_Some; eassumption);
         simplify_eq; eauto
       | rewrite list_lookup_insert_ne in Hu by congruence; eauto ].
Qed.

Lemma worker_frame_run sched : forall s s' u i pc img,
  run requestFrame sched s = Some s' ->
  threads s' !! u = Some (Caching i pc img) ->
  exists pc0 img0, threads s !! u = Some (Caching i pc0 img0).
Proof.
  induction sched as [|t sched IH]; intros s s' u i pc img Hrun Hu;
    cbn in Hrun.
  - simplify_eq. eauto.
  - destruct (step requestFrame t s) as [s1|] eqn:E; [|done]. cbn in Hrun.
    destruct (IH _ _ _ _ _ _ Hrun Hu) as (pc1 & img1 & Hu1).
    exact (worker_frame_step _ _ _ _ _ _ _ E Hu1).
Qed.

Lemma inserted_worker th i :
  inserted th = Some i -> exists pc, th = Caching i pc (local_image th).
Proof.
  destruct th as [k pc img|k z pc]; [|discriminate].
  destruct pc; cbn; try discriminate;
    destruct (isNull img); intros; simplify_eq; eauto.
Qed.

(** The renderer gets the frame mutex only when the worker has unlocked
    it, and by then the worker's image, if it decoded one, is in the
    cache. *)
Lemma wait_over s0 s r i z w thw s1 :
  quiescent s0 -> reachable requestFrame s0 s ->
  threads s !! r = Some (Drawing i z D_wait_lock) ->
  threads s !! w = Some thw -> registered thw = Some i ->
  step requestFrame r s = Some s1 ->
  kept thw = Some i /\
  cachingFramesMutices (handler s) !! i = Some None /\
  (isNull (local_image thw) = false ->
   imageCache (handler s) !! i = Some (local_image thw) /\
   imageCache (handler s1) !! i = Some (local_image thw) /\
   inserted thw = Some i).
Proof.
  intros Hq Hr Ht Hw Hreg Hstep.
  pose proof (reachable_invariant _ _ Hq Hr) as I.
  pose proof (reachable_invariant_image _ _ Hq Hr) as J.
  assert (Hfree : cachingFramesMutices (handler s) !! i = Some None).
  { unfold step in Hstep. rewrite Ht in Hstep.
    cbn [mbind option_bind thread_step draw_step] in Hstep.
    unfold acquire in Hstep. cbn [mutexState] in Hstep.
    destruct (cachingFramesMutices (handler s) !! i) as [[u|]|]; try discriminate.
    reflexivity. }
  assert (Hk : kept thw = Some i).
  { pose proof (fun k => inv_latched _ I w _ k Hw) as L.
    destruct thw as [k pc img|k zk pc]; destruct pc; cbn in Hreg, L |- *;
      simplify_eq; try reflexivity; specialize (L _ eq_refl); congruence. }
  split; [assumption|]. split; [assumption|]. intros Hn.
  pose proof (img_kept _ J _ _ _ Hw Hk Hn) as Hc.
  split; [assumption|]. split.
  - destruct (step_cache_mono _ _ _ _ _ J Hstep Hc)
      as [Hc'|(th & th' & Ht' & Hp & _)]; [assumption|].
    rewrite Ht in Ht'. injection Ht' as <-. discriminate.
  - destruct thw as [k pc img|k zk pc]; destruct pc; cbn in Hk, Hn |- *;
      simplify_eq; rewrite Hn; reflexivity.
Qed.

(** A renderer that waited for worker [w], whose decode had succeeded,
    finds frame [i] when it looks into the cache again (line 88): it
    makes the image of [w] its current image, or the image of another
    worker for the same frame that has replaced it since.  With [w] the
    only worker for frame [i], it is the image of [w]. *)
Lemma waiter_obtains s0 s r i z w pcw img s1 sched s2 :
  quiescent s0 -> reachable requestFrame s0 s ->
  threads s !! r = Some (Drawing i z D_wait_lock) ->
  threads s !! w = Some (Caching i pcw img) ->
  registered (Caching i pcw img) = Some i ->
  isNull img = false ->
  step requestFrame r s = Some s1 ->
  run requestFrame sched s1 = Some s2 ->
  threads s2 !! r = Some (Drawing i z D_recached) ->
  exists img' s3,
    imageCache (handler s2) !! i = Some img' /\
    decoded_by w i img s2 img' /\
    ((forall w' pc' x, threads s !! w' = Some (Caching i pc' x) -> w' = w) ->
     img' = img) /\
    step requestFrame r s2 = Some s3 /\
    currentImage (handler s3) = img' /\
    currentImageIdx (handler s3) = i.
Proof.
  intros Hq Hr Ht Hw Hreg Hn Hstep Hrun Ht2.
  destruct (wait_over _ _ _ _ _ _ _ _ Hq Hr Ht Hw Hreg Hstep)
    as (_ & _ & Hc). destruct (Hc Hn) as (_ & Hc1 & Hi). clear Hc.
  destruct (inserted_stays _ _ _ _ _ _ Hw Hi Hstep) as (th1 & Hw1 & Hi1 & Hl1).
  assert (Hr1 : reachable requestFrame s0 s1) by (econstructor; eassumption).
  assert (Hs : inserted_since w i (local_image th1) s2).
  { apply (inserted_since_run sched s1 s2 w th1 i); try assumption.
    - exact (reachable_invariant _ _ Hq Hr1).
    - exact (reachable_invariant_image _ _ Hq Hr1).
    - exists img. split; [exact Hc1|]. left. symmetry. exact Hl1. }
  rewrite Hl1 in Hs. cbn in Hs. destruct Hs as (img' & Hc2 & Hd).
  assert (Hone : (forall w' pc' x,
                    threads s !! w' = Some (Caching i pc' x) -> w' = w) ->
                 img' = img).
  { intros Hall. destruct Hd as [->|(w' & th' & Hne & Hw' & Hi' & Hl')];
      [reflexivity|]. exfalso.
    destruct (inserted_worker _ _ Hi') as [pc' Heq]. rewrite Heq in Hw'.
    destruct (worker_frame_run _ _ _ _ _ _ _ Hrun Hw') as (pc1 & x1 & Hw1').
    destruct (worker_frame_step _ _ _ _ _ _ _ Hstep Hw1') as (pc0 & x0 & Hw0).
    exact (Hne (Hall _ _ _ Hw0)). }
  unfold step. rewrite Ht2. cbn [mbind option_bind thread_step draw_step].
  unfold promoteCached. rewrite Hc2.
  destruct s2 as [h ow ths].
  destruct h as [ci cidx cfi lib fs cache reg rf rfi tmr p nt tr].
  cbn. eexists img', _. repeat split; assumption.
Qed.

(** *** Insertion and release *)


(** C8.  Threads run [cacheFrame] and [drawFrame] from a quiet start.
    For a worker [w] caching frame [i] with the image [img] it got from
    the producer: while the insertion is still to come (lines 187 to
    191) [img] is a decoded image and the frame mutex is in the registry,
    locked by [w].  When [w] is about to unlock the mutex (line 195), to
    lock the registry again (line 196) or to take the mutex out of the
    registry (line 197), the cache holds [img] for frame [i] already, and
    the mutex is still in the registry.  So whenever the mutex of [w] is
    in the registry and found not held by [w], the cache holds [img].
    Hence the waiter: a renderer that stood at the frame mutex (line 83)
    while [w], with a decoded image, had frame [i] in the registry, and
    that got the mutex, finds frame [i] when it reads the cache (line
    88) and makes it its current frame; what it reads is [img], or the
    image another worker for frame [i] has decoded and inserted since,
    and it is [img] when [w] is the only worker for frame [i]. *)
Theorem insertion_before_release s0 s :
  quiescent s0 -> reachable requestFrame s0 s ->
  (forall w i pc img,
     threads s !! w = Some (Caching i pc img) ->
     (pc = C_insert_lock \/ pc = C_insert ->
      isNull img = false /\
      cachingFramesMutices (handler s) !! i = Some (Some w)) /\
     (isNull img = false ->
      pc = C_frame_unlock \/ pc = C_relock \/ pc = C_take ->
      imageCache (handler s) !! i = Some img /\
      is_Some (cachingFramesMutices (handler s) !! i)) /\
     (isNull img = false ->
      registered (Caching i pc img) = Some i ->
      cachingFramesMutices (handler s) !! i <> Some (Some w) ->
      imageCache (handler s) !! i = Some img) /\
     (isNull img = false ->
      cachingFramesMutices (handler s) !! i <> Some (Some w) ->
      is_Some (imageCache (handler s) !! i))) /\
  (forall r i z w pcw img s1 sched s2,
     threads s !! r = Some (Drawing i z D_wait_lock) ->
     threads s !! w = Some (Caching i pcw img) ->
     registered (Caching i pcw img) = Some i ->
     isNull img = false ->
     step requestFrame r s = Some s1 ->
     run requestFrame sched s1 = Some s2 ->
     threads s2 !! r = Some (Drawing i z D_recached) ->
     exists img' s3,
       imageCache (handler s2) !! i = Some img' /\
       decoded_by w i img s2 img' /\
       ((forall w' pc' x, threads s !! w' = Some (Caching i pc' x) -> w' = w) ->
        img' = img) /\
       step requestFrame r s2 = Some s3 /\
       currentImage (handler s3) = img' /\
       currentImageIdx (handler s3) = i).
Proof.
  intros Hq Hr. pose proof (reachable_invariant _ _ Hq Hr) as I.
  pose proof (reachable_invariant_image _ _ Hq Hr) as J. split.
  - intros w i pc img Hw. split; [|split; [|split]].
    + intros Hpc. split.
      * destruct Hpc as [-> | ->]; exact (img_pending _ J _ _ Hw eq_refl).
      * destruct Hpc as [-> | ->]; exact (inv_latched _ I _ _ _ Hw eq_refl).
    + intros Hn Hpc. split.
      * destruct Hpc as [-> | [-> | ->]];
          exact (img_kept _ J _ _ _ Hw eq_refl Hn).
      * destruct Hpc as [-> | [-> | ->]];
          exact (inv_registered _ I _ _ _ Hw eq_refl).
    + intros Hn Hreg Hfree.
      pose proof (fun k => inv_latched _ I _ _ k Hw) as Hl.
      pose proof (fun k => img_kept _ J _ _ k Hw) as Hk.
      destruct pc; cbn in Hreg, Hl, Hk; try discriminate;
        try (specialize (Hl _ eq_refl); congruence);
        exact (Hk _ eq_refl Hn).
    + intros Hn Hreg.
      pose proof (inv_undecoded _ I _ _ Hw) as Hu.
      pose proof (fun k => inv_latched _ I _ _ k Hw) as Hl.
      pose proof (fun k => inv_inserted _ I _ _ k Hw) as Hi.
      destruct pc; cbn in Hu, Hl, Hi; rewrite ?Hn in Hi;
        try (specialize (Hu eq_refl); subst img; discriminate);
        try (specialize (Hl _ eq_refl); congruence);
        eauto.
  - intros r i z w pcw img s1 sched s2.
    exact (waiter_obtains s0 s r i z w pcw img s1 sched s2 Hq Hr).
Qed.

(** *** The renderer and a frame that is being cached *)

Lemma count_snoc f (l : list Action) a :
  count f (l ++ [a]) = (count f l + if f a then 1 else 0)%nat.
Proof.
  unfold count. rewrite filter_app, length_app. f_equal.
  rewrite filter_cons. destruct (f a); reflexivity.
Qed.



(** *** Mutual exclusion *)

(** X20.  From a quiet start, no two threads are ever inside the same critical
    section: the handler's three mutexes have one holder at most, and so
    has the mutex of every frame. *)
Theorem mutual_exclusion s0 s t1 t2 th1 th2 :
  quiescent s0 -> reachable requestFrame s0 s ->
  threads s !! t1 = Some th1 -> threads s !! t2 = Some th2 ->
  (exists m, holds m th1 = true /\ holds m th2 = true) \/
  (exists i, latched th1 = Some i /\ latched th2 = Some i) ->
  t1 = t2.
Proof.
  intros Hq Hr H1 H2 Hboth. pose proof (reachable_invariant _ _ Hq Hr) as I.
  destruct Hboth as [(m & M1 & M2)|(i & L1 & L2)].
  - pose proof (inv_mutex _ I _ _ _ H1 M1).
    pose proof (inv_mutex _ I _ _ _ H2 M2). congruence.
  - pose proof (inv_latched _ I _ _ _ H1 L1).
    pose proof (inv_latched _ I _ _ _ H2 L2). congruence.
Qed.

(** X21.  The registry lists the frames that are being cached, no more and no
    less: a frame has an entry exactly while some worker is between
    lines 179 and 197 for it, and no two workers are there for the same
    frame.  So a frame is never decoded by two workers at a time. *)
Theorem registry_tracks_workers s0 s i :
  quiescent s0 -> reachable requestFrame s0 s ->
  (is_Some (cachingFramesMutices (handler s) !! i) <->
   exists w th, threads s !! w = Some th /\ registered th = Some i) /\
  (forall w1 w2 th1 th2,
     threads s !! w1 = Some th1 -> threads s !! w2 = Some th2 ->
     registered th1 = Some i -> registered th2 = Some i -> w1 = w2).
Proof.
  intros Hq Hr. pose proof (reachable_invariant _ _ Hq Hr) as I. split.
  - split; [apply (inv_entry _ I)|].
    intros (w & th & Hw & Hreg). eapply (inv_registered _ I); eassumption.
  - intros w1 w2 th1 th2. apply (inv_unique _ I).
Qed.

(** *** Who writes what *)

(** X22.  A worker never writes the frame on display, and a renderer never
    writes the cache, the set of frames in the registry or the timer:
    this holds of every single step, from a quiet start. *)
Theorem step_footprint s0 s t th s' :
  quiescent s0 -> reachable requestFrame s0 s ->
  threads s !! t = Some th ->
  step requestFrame t s = Some s' ->
  match th with
  | Caching _ _ _ =>
      currentImage (handler s') = currentImage (handler s) /\
      currentImageIdx (handler s') = currentImageIdx (handler s) /\
      loadingInBackground (handler s') = loadingInBackground (handler s)
  | Drawing _ _ _ =>
      imageCache (handler s') = imageCache (handler s) /\
      dom (cachingFramesMutices (handler s')) =
        dom (cachingFramesMutices (handler s)) /\
      cachingTimer (handler s') = cachingTimer (handler s)
  end.
Proof.
  intros Hq Hr Hth Hstep. pose proof (reachable_invariant _ _ Hq Hr) as I.
  step_cases I Hstep.
  all: cbn in Hth; simplify_eq; cbn; repeat split.
  all: rewrite dom_insert_L; apply subseteq_union_1_L;
       apply singleton_subseteq_l, elem_of_dom; eauto.
  pose proof (inv_latched _ I _ _ _ Ht eq_refl) as G. cbn in G.
  rewrite G. eauto.
Qed.

(** *** What is cached stays cached *)

Lemma step_keeps_cached h0 s t s' :
  keeps_cached h0 s -> step requestFrame t s = Some s' -> keeps_cached h0 s'.
Proof.
  intros K Hstep. assert (I : True) by exact Logic.I. step_cases I Hstep.
  all: pose proof (fun k => kept_out _ _ K t _ k Ht) as F; cbn in F.
  all: pose proof (kept_image _ _ K) as G; cbn in G.
  all: pose proof (kept_quiet _ _ K) as Kq; cbn [handler trace] in Kq.
  all: constructor; cbn [handler trace threads imageCache].
  all: try (intros j img0 Hj; specialize (G _ _ Hj);
            first [ assumption
                  | rewrite lookup_insert_ne; [assumption|];
                    intros <-; use_eq; congruence ]).
  all: try (intros u thu k Hu Hp; split_thread u t Hu;
            [ cbn in Hp; simplify_eq; use_eq; try assumption;
              try (destruct (imageCache h0 !! k) as [img0|] eqn:E0;
                   [specialize (G _ _ E0); congruence | reflexivity])
            | exact (kept_out _ _ K _ _ _ Hu Hp) ]).
  all: intros j Hj; rewrite <- (Kq j Hj), ?count_snoc; cbn [is_emit].
  all: repeat case_bool_decide; simplify_eq; try lia.
  all: use_eq; destruct Hj; congruence.
Qed.

(** X23.  Threads run [cacheFrame] and [drawFrame] from a quiet start.  A frame
    that was cached at the start stays cached, with the image it had:
    workers and renderers remove nothing and overwrite nothing that was
    there, and no worker asks the producer for such a frame. *)
Theorem cached_stays s0 s j img :
  quiescent s0 -> reachable requestFrame s0 s ->
  imageCache (handler s0) !! j = Some img ->
  imageCache (handler s) !! j = Some img /\
  count (is_emit (signalRequestFrame j true))
    (since (handler s0) (handler s)) = 0%nat.
Proof.
  intros Hq Hr Hj.
  assert (K : keeps_cached (handler s0) s /\
              exists l, trace (handler s) = trace (handler s0) ++ l).
  { clear Hj. induction Hr as [|s t s' _ [K [l Hl]] Hstep].
    - split; [|exists []; by rewrite app_nil_r]. constructor; auto.
      intros t th i Ht Hp. destruct Hq as (_ & _ & Hfresh).
      pose proof (Forall_lookup_1 _ _ _ _ Hfresh Ht) as Hf.
      destruct th as [k pc img0|k z pc]; [|discriminate].
      destruct Hf as [-> _]. discriminate.
    - split; [eapply step_keeps_cached; eassumption|].
      clear K. assert (I : True) by exact Logic.I. step_cases I Hstep.
      all: cbn in Hl; cbn; rewrite Hl, <- ?app_assoc; eauto. }
  destruct K as [K [l Hl]]. split; [by apply (kept_image _ _ K)|].
  pose proof (kept_quiet _ _ K j ltac:(eauto)) as Kq.
  rewrite (since_app _ _ _ Hl). rewrite Hl in Kq.
  unfold count in *. rewrite filter_app, length_app in Kq. lia.
Qed.

(** *** Progress *)

Lemma step_keeps_holder s t s' :
  invariant s -> ownership s -> step requestFrame t s = Some s' ->
  forall m u, owner s' m = Some u ->
    exists th, threads s' !! u = Some th /\ holds m th = true.
Proof.
  intros I O Hstep. step_cases I Hstep.
  all: intros m u Hown; cbn in Hown; cbn.
  all: assert (Hlen : (t < length ths)%nat) by (eapply lookup_lt_Some; eassumption).
  all: destruct m; cbn in Hown; try discriminate.
  all: try (simplify_eq; eexists; split;
            [apply list_lookup_insert_eq, Hlen | reflexivity]; fail).
  all: destruct (own_holder _ O _ _ Hown) as (thu & Hu & Hh); cbn in Hu;
       destruct (decide (u = t)) as [->|?];
       [ rewrite Ht in Hu; injection Hu as <-; cbn in Hh; try discriminate;
         try (eexists; split; [apply list_lookup_insert_eq, Hlen | reflexivity])
       | exists thu; split;
         [rewrite list_lookup_insert_ne by congruence; assumption | assumption] ].
Qed.

Lemma step_keeps_latch s t s' :
  invariant s -> ownership s -> step requestFrame t s = Some s' ->
  forall k u, cachingFramesMutices (handler s') !! k = Some (Some u) ->
    exists th, threads s' !! u = Some th /\ latched th = Some k.
Proof.
  intros I O Hstep. step_cases I Hstep.
  all: intros k u Hreg; cbn in Hreg; cbn.
  all: assert (Hlen : (t < length ths)%nat) by (eapply lookup_lt_Some; eassumption).
  all: try (rewrite lookup_insert_Some in Hreg;
            destruct Hreg as [[<- Heq]|[Hne Hreg]];
            [ simplify_eq;
              try (eexists; split;
                   [apply list_lookup_insert_eq, Hlen | reflexivity]) | ]).
  all: try (rewrite lookup_delete_Some in Hreg; destruct Hreg as [Hne Hreg]).
  all: destruct (own_latch _ O _ _ Hreg) as (thu & Hu & Hl); cbn in Hu;
       destruct (decide (u = t)) as [->|?];
       [ rewrite Ht in Hu; injection Hu as <-; cbn in Hl; simplify_eq;
         try (eexists; split; [apply list_lookup_insert_eq, Hlen | reflexivity])
       | exists thu; split;
         [rewrite list_lookup_insert_ne by congruence; assumption | assumption] ].
Qed.

Lemma step_keeps_wait s t s' :
  invariant s -> ownership s -> step requestFrame t s = Some s' ->
  forall u k z, threads s' !! u = Some (Drawing k z D_wait_lock) ->
    is_Some (cachingFramesMutices (handler s') !! k).
Proof.
  intros I O Hstep. step_cases I Hstep.
  all: intros u k zk Hu; cbn in Hu; cbn.
  all: destruct (decide (u = t)) as [->|?];
       [ rewrite list_lookup_insert_eq in Hu
           by (eapply lookup_lt_Some; eassumption);
         simplify_eq; eauto; fail
       | rewrite list_lookup_insert_ne in Hu by congruence ].
  all: pose proof (own_wait _ O _ _ _ Hu) as G; cbn in G; try assumption.
  all: try (rewrite lookup_insert_is_Some; destruct (decide (i = k)); auto; fail).
  rewrite lookup_delete_is_Some. split; [|assumption]. intros <-.
  pose proof (inv_mutex _ I cachingFramesMuticesAccess _ _ Ht eq_refl) as G1.
  pose proof (inv_mutex _ I cachingFramesMuticesAccess _ _ Hu eq_refl) as G2.
  cbn in G1, G2. congruence.
Qed.

Lemma reachable_ownership s0 s :
  quiescent s0 -> reachable requestFrame s0 s -> ownership s.
Proof.
  intros Hq Hr. induction Hr as [|s t s' Hr IH Hstep].
  - destruct Hq as (Hreg & Hown & Hfresh). constructor.
    + intros m t. rewrite Hown. discriminate.
    + intros i t. rewrite Hreg, lookup_empty. discriminate.
    + intros t i z Ht. pose proof (Forall_lookup_1 _ _ _ _ Hfresh Ht) as Hf.
      discriminate.
  - pose proof (reachable_invariant _ _ Hq Hr) as I. constructor.
    + eapply step_keeps_holder; eassumption.
    + eapply step_keeps_latch; eassumption.
    + eapply step_keeps_wait; eassumption.
Qed.

(** A thread whose call has not returned has a step, unless its next
    statement locks a mutex that is held. *)
Lemma step_enabled s t th :
  threads s !! t = Some th -> finished th = false ->
  (forall m, wants th = Some m -> mutexState m s = Some None) ->
  exists s', step requestFrame t s = Some s'.
Proof.
  intros Ht Hf Hw. unfold step. rewrite Ht. cbn [mbind option_bind].
  destruct th as [i pc img|i z pc]; destruct pc; try discriminate;
    cbn [wants] in Hw; try specialize (Hw _ eq_refl);
    cbn [thread_step cache_step draw_step]; unfold acquire; rewrite ?Hw;
    cbn [mbind option_bind];
    repeat match goal with
           | |- context [match ?x with _ => _ end] =>
               lazymatch x with
               | context [match _ with _ => _ end] => fail
               | _ => destruct x
               end
           end; eauto.
Qed.

Lemma pick_thread (Q : Thread -> Prop) `{!forall th, Decision (Q th)}
    (l : list (@Thread)) :
  (exists t th, l !! t = Some th /\ Q th) \/
  (forall t th, l !! t = Some th -> ~ Q th).
Proof.
  destruct (decide (Exists Q l)) as [E|N]; [left|right].
  - apply Exists_exists in E as (th & Hin & HQ).
    apply list_elem_of_lookup in Hin as [t Ht]. eauto.
  - intros t th Ht HQ. apply N, Exists_exists. exists th. split; [|exact HQ].
    apply list_elem_of_lookup. eauto.
Qed.

(** The order of the locks leaves no room for a cycle: the registry lock
    is taken before a frame mutex, a frame mutex before the cache lock or
    the request lock, and nothing is taken while one of these two is
    held. *)
Lemma progress_or_done s :
  invariant s -> ownership s ->
  Forall (fun th => finished th = true) (threads s) \/
  exists t s', step requestFrame t s = Some s'.
Proof.
  intros I O.
  assert (E : forall t th,
             threads s !! t = Some th -> finished th = false ->
             (forall m, wants th = Some m -> mutexState m s = Some None) ->
             exists t s', step requestFrame t s = Some s').
  { intros t th Ht Hf Hw. exists t. eapply step_enabled; eassumption. }
  destruct (pick_thread (fun th => finished th = false /\ wants th = None)
              (threads s)) as [(t & th & Ht & Hf & Hw)|N1].
  { right. eapply E; [exact Ht|exact Hf|]. intros m Hm. congruence. }
  assert (L1 : owner s imageCacheAccess = None).
  { destruct (owner s imageCacheAccess) as [u|] eqn:Eo; [|reflexivity].
    destruct (own_holder _ O _ _ Eo) as (th & Hu & Hh). exfalso.
    apply (N1 _ _ Hu).
    destruct th as [? pc ?|? ? pc]; destruct pc; cbn in Hh; try discriminate; done. }
  assert (L2 : owner s requestDataMutex = None).
  { destruct (owner s requestDataMutex) as [u|] eqn:Eo; [|reflexivity].
    destruct (own_holder _ O _ _ Eo) as (th & Hu & Hh). exfalso.
    apply (N1 _ _ Hu).
    destruct th as [? pc ?|? ? pc]; destruct pc; cbn in Hh; try discriminate; done. }
  destruct (pick_thread (fun th => wants th = Some imageCacheAccess \/
                                   wants th = Some requestDataMutex)
              (threads s)) as [(t & th & Ht & Hw)|N2].
  { right. eapply E; [exact Ht| |].
    - destruct th as [? pc ?|? ? pc]; destruct pc; destruct Hw; try discriminate;
        reflexivity.
    - intros m Hm.
      destruct Hw as [Hw|Hw]; rewrite Hw in Hm; simplify_eq; cbn; congruence. }
  destruct (owner s cachingFramesMuticesAccess) as [u|] eqn:Eo.
  - (* the holder of the registry lock waits for a frame mutex *)
    destruct (own_holder _ O _ _ Eo) as (th & Hu & Hh).
    assert (exists i z, th = Drawing i z D_wait_lock) as (i & z & ->).
    { destruct th as [? pc ?|? ? pc]; destruct pc; cbn in Hh; try discriminate;
        try (exfalso; apply (N1 _ _ Hu); done); eauto. }
    destruct (own_wait _ O _ _ _ Hu) as [[w|] Hreg].
    + exfalso. destruct (own_latch _ O _ _ Hreg) as (thw & Hw & Hl).
      destruct thw as [? pc ?|? ? pc]; destruct pc; cbn in Hl; try discriminate;
        first [ apply (N1 _ _ Hw); done
              | apply (N2 _ _ Hw); cbn; auto ].
    + right. eapply E; [exact Hu|reflexivity|].
      intros m Hm. cbn in Hm. simplify_eq. exact Hreg.
  - destruct (pick_thread (fun th => wants th = Some cachingFramesMuticesAccess)
                (threads s)) as [(t & th & Ht & Hw)|N3].
    { right. eapply E; [exact Ht| |].
      - destruct th as [? pc ?|? ? pc]; destruct pc; try discriminate; reflexivity.
      - intros m Hm. rewrite Hw in Hm. simplify_eq. cbn. congruence. }
    left. apply Forall_lookup_2. intros t th Ht.
    destruct (finished th) eqn:Hf; [reflexivity|]. exfalso.
    destruct th as [? pc ?|? ? pc]; destruct pc; try discriminate Hf;
      first [ apply (N1 _ _ Ht); done
            | apply (N2 _ _ Ht); cbn; auto; fail
            | apply (N3 _ _ Ht); reflexivity
            | pose proof (inv_mutex _ I cachingFramesMuticesAccess _ _ Ht eq_refl);
              congruence ].
Qed.

(** X24.  Threads run [cacheFrame] and [drawFrame] from a quiet start.  They
    never block each other for good: in every state they can reach,
    either every call has returned or some thread has a step. *)
Theorem no_deadlock s0 s :
  quiescent s0 -> reachable requestFrame s0 s ->
  Forall (fun th => finished th = true) (threads s) \/
  exists t s', step requestFrame t s = Some s' /\ reachable requestFrame s0 s'.
Proof.
  intros Hq Hr.
  destruct (progress_or_done s (reachable_invariant _ _ Hq Hr)
              (reachable_ownership _ _ Hq Hr)) as [?|(t & s' & Hstep)]; [by left|].
  right. exists t, s'. split; [assumption|]. econstructor; eassumption.
Qed.

Lemma sum_insert_lt (f : @Thread -> nat) l : forall t x y,
  l !! t = Some x -> (f y < f x)%nat ->
  (sum_list (f <$> <[t:=y]> l) < sum_list (f <$> l))%nat.
Proof.
  induction l as [|a l IH]; intros [|t] x y Hl Hlt; cbn in *; simplify_eq.
  - lia.
  - apply Nat.add_lt_mono_l. exact (IH _ _ _ Hl Hlt).
Qed.

(** Every step brings its thread nearer to the end of its call. *)
Lemma step_work s t s' :
  step requestFrame t s = Some s' -> (work s' < work s)%nat.
Proof.
  intros Hstep. assert (I : True) by exact Logic.I. step_cases I Hstep.
  all: unfold work; cbn [threads].
  all: eapply sum_insert_lt; [exact Ht | cbn; lia].
Qed.

(** X25.  No schedule runs for ever: its length is bounded by the statements
    the threads have before them. *)
Theorem run_bounded sched : forall s s',
  run requestFrame sched s = Some s' ->
  (length sched + work s' <= work s)%nat.
Proof.
  induction sched as [|t sched IH]; intros s s' Hrun; cbn in Hrun.
  - simplify_eq. cbn. lia.
  - destruct (step requestFrame t s) as [s1|] eqn:E; [|done]. cbn in Hrun.
    specialize (IH _ _ Hrun). pose proof (step_work _ _ _ E). cbn. lia.
Qed.

(** X26.  From a quiet start every call returns: whatever state the threads
    have reached, letting them run on brings all of them to the end of
    their calls. *)
Theorem calls_return s0 s :
  quiescent s0 -> reachable requestFrame s0 s ->
  exists sched s',
    run requestFrame sched s = Some s' /\
    Forall (fun th => finished th = true) (threads s') /\
    (length sched <= work s)%nat.
Proof.
  intros Hq. remember (work s) as n eqn:Hn. revert s Hn.
  induction n as [n IH] using lt_wf_ind. intros s -> Hr.
  destruct (progress_or_done s (reachable_invariant _ _ Hq Hr)
              (reachable_ownership _ _ Hq Hr)) as [Hdone|(t & s1 & Hstep)].
  - exists [], s. repeat split; [assumption|cbn; lia].
  - pose proof (step_work _ _ _ Hstep) as Hlt.
    destruct (IH _ Hlt s1 eq_refl) as (sched & s' & Hrun & Hdone & Hlen).
    { econstructor; eassumption. }
    exists (t :: sched), s'. cbn. rewrite Hstep. cbn.
    repeat split; [assumption..|lia].
Qed.

(** X27.  When every call has returned, nothing is left behind: no mutex is
    held and the registry of frame mutexes is empty. *)
Theorem returned_released s0 s :
  quiescent s0 -> reachable requestFrame s0 s ->
  Forall (fun th => finished th = true) (threads s) ->
  cachingFramesMutices (handler s) = ∅ /\
  (forall m, owner s m = None).
Proof.
  intros Hq Hr Hdone.
  pose proof (reachable_invariant _ _ Hq Hr) as I.
  pose proof (reachable_ownership _ _ Hq Hr) as O.
  assert (F : forall t th, threads s !! t = Some th -> finished th = true).
  { intros t th Ht. exact (Forall_lookup_1 _ _ _ _ Hdone Ht). }
  split.
  - apply map_empty. intros i.
    destruct (cachingFramesMutices (handler s) !! i) as [m|] eqn:E; [|reflexivity].
    destruct (inv_entry _ I i) as (w & th & Hw & Hreg); [rewrite E; eauto|].
    specialize (F _ _ Hw).
    destruct th as [? pc ?|? ? pc]; destruct pc; discriminate.
  - intros m. destruct (owner s m) as [u|] eqn:E; [|reflexivity].
    destruct (own_holder _ O _ _ E) as (th & Hu & Hh).
    specialize (F _ _ Hu).
    destruct th as [? pc ?|? ? pc]; destruct pc; destruct m; discriminate.
Qed.

(** X4.  A thread whose call has not returned is blocked exactly when
    another thread holds the mutex that its next statement locks: one of
    the three mutexes of the handler, or the mutex of the frame a
    renderer waits for.  No thread ever waits for a mutex that it holds
    itself. *)
Theorem blocked_by_holder s0 s t th :
  quiescent s0 -> reachable requestFrame s0 s ->
  threads s !! t = Some th -> finished th = false ->
  (step requestFrame t s = None <->
   exists m u thu,
     wants th = Some m /\ u <> t /\ threads s !! u = Some thu /\
     (holds m thu = true \/
      exists i, m = frameMutex i /\ latched thu = Some i)).
Proof.
  intros Hq Hr Ht Hf.
  pose proof (reachable_invariant _ _ Hq Hr) as I.
  pose proof (reachable_ownership _ _ Hq Hr) as O.
  split.
  - intros Hnone.
    destruct (wants th) as [m|] eqn:Hw.
    2: { destruct (step_enabled s t th Ht Hf) as [s' Hs]; [|congruence].
         intros m Hm. congruence. }
    destruct (mutexState m s) as [[u|]|] eqn:Hm.
    + exists m, u.
      assert (Hself : holds m th = false /\
                      forall i, m = frameMutex i -> latched th = None).
      { destruct th as [k pc img|k zk pc]; destruct pc; cbn in Hw |- *;
          simplify_eq; split; try reflexivity; intros; try discriminate;
          reflexivity. }
      destruct Hself as [Hs1 Hs2].
      destruct m as [| | |i]; cbn in Hm; simplify_eq.
      1-3: match goal with
           | E : owner _ _ = Some _ |- _ =>
               destruct (own_holder _ O _ _ E) as (thu & Hu & Hh)
           end;
           exists thu; split; [reflexivity|]; split;
           [intros ->; rewrite Ht in Hu; injection Hu as <-; congruence|];
           split; [exact Hu|left; exact Hh].
      destruct (own_latch _ O _ _ Hm) as (thu & Hu & Hl).
      exists thu. split; [reflexivity|]. split.
      * intros ->. rewrite Ht in Hu. injection Hu as <-.
        rewrite (Hs2 _ eq_refl) in Hl. discriminate.
      * split; [exact Hu|]. right. exists i. split; [reflexivity|exact Hl].
    + destruct (step_enabled s t th Ht Hf) as [s' Hs]; [|congruence].
      intros m' Hm'. congruence.
    + exfalso. destruct m as [| | |i]; cbn in Hm; try discriminate.
      destruct th as [k pc img|k zk pc]; destruct pc; cbn in Hw; simplify_eq.
      destruct (own_wait _ O _ _ _ Ht) as [q Hq']. congruence.
  - intros (m & u & thu & Hw & Hne & Hu & Hor).
    unfold step. rewrite Ht. cbn [mbind option_bind].
    destruct Hor as [Hh|(i & -> & Hl)].
    + pose proof (inv_mutex _ I _ _ _ Hu Hh) as Hown.
      destruct th as [k pc img|k zk pc]; destruct pc; cbn in Hw; simplify_eq;
        cbn [thread_step cache_step draw_step]; unfold acquire;
        cbn [mutexState]; rewrite ?Hown; reflexivity.
    + pose proof (inv_latched _ I _ _ _ Hu Hl) as Hreg.
      destruct th as [k pc img|k zk pc]; destruct pc; cbn in Hw; simplify_eq.
      cbn [thread_step draw_step]. unfold acquire. cbn [mutexState].
      rewrite Hreg. reflexivity.
Qed.

End Threads.

(** ** One thread on its own

    The two descriptions of the code agree: a thread that nobody
    interrupts does what the call does. *)

Section Alone.
Context {P : Type}.
Variable requestFrame : Z -> bool -> P -> QImage -> Z -> P * QImage * Z.

Local Arguments isActive : simpl never.
Local Arguments emit_cachingTimerStart : simpl never.
Local Arguments drawCurrent : simpl never.

(** Runs the schedule, using the equations in the context at the tests. *)
Ltac stepping :=
  unfold run, step;
  repeat (cbn;
          unfold acquire, contains, promoteCached, producerReturns,
            registerFrameMutex, unlockFrameMutex, takeFrameMutex,
            insertIntoCache, setRequestedAsCurrent;
          repeat match goal with
                 | H : ?x = _ |- context [?x] => rewrite H
                 end);
  cbn.

Ltac arrived :=
  split; [reflexivity|]; split; [reflexivity|];
  split; [reflexivity|]; intros []; reflexivity.

(** A worker that runs alone goes through the statements of [cacheFrame]
    in order: its steps add up to the call. *)
Lemma cacheFrame_alone (h : @videoHandler P) i :
  exists n s img,
    run requestFrame (replicate n 0%nat)
      (start h [Caching i C_isInCache_lock QImage_null]) = Some s /\
    threads s = [Caching i C_done img] /\
    handler s = cacheFrame requestFrame 0%nat i h /\
    (forall m, owner s m = None).
Proof.
  destruct h as [ci cidx cfi lib fs cache reg rf rfi tmr p nt tr].
  unfold cacheFrame, isInCache, loadFrameForCaching,
    emit_signalRequestFrame, start.
  destruct (cache !! i) as [img|] eqn:Ec.
  { exists 2%nat. eexists _, _. stepping. arrived. }
  destruct (reg !! i) as [m|] eqn:Er.
  { exists 4%nat. eexists _, _. stepping. arrived. }
  destruct (requestFrame i true p rf rfi) as [[p' img'] idx'] eqn:Ep.
  destruct (idx' =? i) eqn:Ei; [destruct (isNull img') eqn:En|].
  - exists 13%nat. eexists _, _. stepping. arrived.
  - exists 15%nat. eexists _, _. stepping. arrived.
  - exists 13%nat. eexists _, _. stepping. arrived.
Qed.

(** The same for a renderer: its steps add up to [drawFrame], and where
    the call does not return the thread stands at the frame mutex. *)
Lemma drawFrame_alone (h : @videoHandler P) i z :
  match drawFrame requestFrame i z h with
  | Some h' =>
      exists n s,
        run requestFrame (replicate n 0%nat) (start h [Drawing i z D_start]) = Some s /\
        threads s = [Drawing i z D_done] /\
        handler s = h' /\
        (forall m, owner s m = None)
  | None =>
      exists n s,
        run requestFrame (replicate n 0%nat) (start h [Drawing i z D_start]) = Some s /\
        threads s = [Drawing i z D_wait_lock] /\
        step requestFrame 0%nat s = None
  end.
Proof.
  destruct h as [ci cidx cfi lib fs cache reg rf rfi tmr p nt tr].
  unfold drawFrame, makeCachedFrameCurrent, waitForFrameMutex, loadFrame,
    emit_signalRequestFrame, start. cbn.
  destruct (i =? cidx) eqn:Ecur.
  { cbn. exists 2%nat. eexists. stepping. arrived. }
  cbn. destruct (cache !! i) as [img|] eqn:Ec; cbn.
  { exists 4%nat. eexists. stepping. arrived. }
  unfold contains. cbn. destruct (reg !! i) as [[w|]|] eqn:Er; cbn.
  - exists 5%nat. eexists. stepping. repeat split.
    stepping. reflexivity.
  - rewrite Ec. cbn. exists 11%nat. eexists. stepping.
    rewrite insert_insert_eq, (insert_id _ _ _ Er). arrived.
  - destruct (rfi =? i) eqn:Er'; cbn.
    { exists 8%nat. eexists. stepping. arrived. }
    unfold producerReturns. cbn.
    destruct (requestFrame i false p rf rfi) as [[p' img'] idx'] eqn:Ep. cbn.
    destruct (idx' =? i) eqn:Ei; cbn.
    + exists 11%nat. eexists. stepping. arrived.
    + exists 10%nat. eexists. stepping. arrived.
Qed.

End Alone.

(** ** The interleaving properties on concrete runs *)

Lemma worker_and_renderer_quiescent : quiescent Samples.worker_and_renderer.
Proof.
  split; [reflexivity|]. split; [reflexivity|].
  repeat constructor.
Qed.

(** Thread 0 has decoded frame 9, inserted it and unlocked the frame
    mutex, with thread 1 standing at the mutex: the cache holds the image
    of thread 0.  Thread 1 then takes the mutex, goes on to its second
    look into the cache and gets that image. *)
Lemma insertion_before_release_witness :
  exists s s2,
    run Samples.ready Samples.until_unlocked Samples.worker_and_renderer = Some s /\
    threads s !! 0%nat = Some (Caching 9 C_relock (Samples.frame 9)) /\
    threads s !! 1%nat = Some (Drawing 9 1%Q D_wait_lock) /\
    imageCache (handler s) !! 9 = Some (Samples.frame 9) /\
    run Samples.ready [1; 1; 1; 1]%nat s = Some s2 /\
    threads s2 !! 1%nat = Some (Drawing 9 1%Q D_recached) /\
    exists img' s3,
      imageCache (handler s2) !! 9 = Some img' /\
      decoded_by 0%nat 9 (Samples.frame 9) s2 img' /\
      ((forall w' pc' x,
          threads s !! w' = Some (Caching 9 pc' x) -> w' = 0%nat) ->
       img' = Samples.frame 9) /\
      step Samples.ready 1%nat s2 = Some s3 /\
      currentImage (handler s3) = img' /\
      currentImageIdx (handler s3) = 9.
Proof.
  let r := eval vm_compute in
    (run Samples.ready Samples.until_unlocked Samples.worker_and_renderer) in
  match r with
  | Some ?s =>
      exists s;
      assert (Hr : reachable Samples.ready Samples.worker_and_renderer s)
        by (apply (run_reachable Samples.ready Samples.until_unlocked
                     Samples.worker_and_renderer Samples.worker_and_renderer s
                     (reachable_init _ _)); vm_compute; reflexivity);
      pose proof (insertion_before_release Samples.ready _ _
                    worker_and_renderer_quiescent Hr) as [Hw Hwait];
      let r1 := eval vm_compute in (step Samples.ready 1%nat s) in
      let r2 := eval vm_compute in (run Samples.ready [1; 1; 1; 1]%nat s) in
      match r1 with
      | Some ?s1 =>
          match r2 with
          | Some ?s2 =>
              exists s2;
              split; [vm_compute; reflexivity|];
              split; [reflexivity|]; split; [reflexivity|];
              split;
                [exact (proj1 (proj1 (proj2 (Hw 0%nat 9 C_relock (Samples.frame 9)
                                               eq_refl))
                                 eq_refl (or_intror (or_introl eq_refl))))|];
              split; [vm_compute; reflexivity|]; split; [reflexivity|];
              apply (Hwait 1%nat 9 1%Q 0%nat C_relock (Samples.frame 9) s1
                       [1; 1; 1]%nat s2);
                [reflexivity | reflexivity | reflexivity | reflexivity
                | vm_compute; reflexivity | vm_compute; reflexivity
                | reflexivity]
          end
      end
  end.
Defined.



Lemma cached_system_quiescent : quiescent Samples.cached_system.
Proof.
  split; [reflexivity|]. split; [reflexivity|].
  repeat constructor.
Qed.

(** Where the two threads are after [until_blocked]. *)
Ltac blocked_state :=
  let r := eval vm_compute in
    (run Samples.ready Samples.until_blocked Samples.worker_and_renderer) in
  match r with
  | Some ?s =>
      exists s; split; [vm_compute; reflexivity|];
      assert (Hr : reachable Samples.ready Samples.worker_and_renderer s)
        by (apply (run_reachable Samples.ready Samples.until_blocked
                     Samples.worker_and_renderer Samples.worker_and_renderer s
                     (reachable_init _ _)); vm_compute; reflexivity)
  end.

(** Thread 0 is inside its request and holds the request mutex; whoever
    holds it is thread 0. *)
Lemma mutual_exclusion_witness :
  exists s,
    run Samples.ready Samples.until_blocked Samples.worker_and_renderer = Some s /\
    threads s !! 0%nat = Some (Caching 9 C_request QImage_null) /\
    forall t th,
      threads s !! t = Some th -> holds requestDataMutex th = true -> t = 0%nat.
Proof.
  blocked_state. split; [reflexivity|]. intros t th Ht Hh.
  apply (mutual_exclusion Samples.ready Samples.worker_and_renderer _ t 0%nat
           th (Caching 9 C_request QImage_null)
           worker_and_renderer_quiescent Hr Ht eq_refl).
  left. exists requestDataMutex. split; [exact Hh|reflexivity].
Defined.

(** Frame 9 is in the registry, and thread 0 is its worker. *)
Lemma registry_tracks_workers_witness :
  exists s,
    run Samples.ready Samples.until_blocked Samples.worker_and_renderer = Some s /\
    is_Some (cachingFramesMutices (handler s) !! 9) /\
    forall w th,
      threads s !! w = Some th -> registered th = Some 9 -> w = 0%nat.
Proof.
  blocked_state.
  destruct (registry_tracks_workers Samples.ready Samples.worker_and_renderer
              _ 9 worker_and_renderer_quiescent Hr) as [He Hu].
  split.
  - apply He. exists 0%nat, (Caching 9 C_request QImage_null).
    split; reflexivity.
  - intros w th Hw Hreg.
    apply (Hu w 0%nat th (Caching 9 C_request QImage_null) Hw eq_refl Hreg
             eq_refl).
Defined.

(** The next step of the worker, the signal to the producer, leaves the
    frame on display alone. *)
Lemma step_footprint_witness :
  exists s,
    run Samples.ready Samples.until_blocked Samples.worker_and_renderer = Some s /\
    exists s',
      step Samples.ready 0%nat s = Some s' /\
      currentImage (handler s') = currentImage (handler s) /\
      currentImageIdx (handler s') = currentImageIdx (handler s).
Proof.
  blocked_state.
  match goal with
  | |- exists s', step _ _ ?s = _ /\ _ =>
      let r := eval vm_compute in (step Samples.ready 0%nat s) in
      match r with
      | Some ?s' =>
          exists s'; split; [vm_compute; reflexivity|];
          destruct (step_footprint Samples.ready Samples.worker_and_renderer s
                      0%nat (Caching 9 C_request QImage_null) s'
                      worker_and_renderer_quiescent Hr eq_refl
                      ltac:(vm_compute; reflexivity))
            as (Hi & Hx & _)
      end
  end.
  split; assumption.
Defined.

(** Frames 1 and 2 are cached at the start; a worker for frame 1 and a
    renderer for frame 2 run to the end, and frame 1 is as it was. *)
Lemma cached_stays_witness :
  exists s,
    run Samples.ready [0; 1; 0; 1; 1; 1]%nat Samples.cached_system = Some s /\
    imageCache (handler s) !! 1 = Some (Samples.frame 1) /\
    count (is_emit (signalRequestFrame 1 true))
      (since (handler Samples.cached_system) (handler s)) = 0%nat.
Proof.
  eexists. split; [vm_compute; reflexivity|].
  match goal with
  | |- context [handler ?s] =>
      lazymatch s with
      | Samples.cached_system => fail
      | _ =>
          apply (cached_stays Samples.ready Samples.cached_system s 1
                   (Samples.frame 1) cached_system_quiescent)
      end
  end.
  - apply (run_reachable Samples.ready [0; 1; 0; 1; 1; 1]%nat
             Samples.cached_system Samples.cached_system _
             (reachable_init _ _)).
    vm_compute. reflexivity.
  - reflexivity.
Defined.

(** The renderer stands at the locked frame mutex, and the worker has a
    step. *)
Lemma no_deadlock_witness :
  exists s,
    run Samples.ready Samples.until_blocked Samples.worker_and_renderer = Some s /\
    step Samples.ready 1%nat s = None /\
    (Forall (fun th => finished th = true) (threads s) \/
     exists t s', step Samples.ready t s = Some s' /\
                  reachable Samples.ready Samples.worker_and_renderer s').
Proof.
  blocked_state. split; [reflexivity|].
  exact (no_deadlock Samples.ready Samples.worker_and_renderer _
           worker_and_renderer_quiescent Hr).
Defined.

Lemma run_bounded_witness :
  exists s,
    run Samples.ready Samples.until_blocked Samples.worker_and_renderer = Some s /\
    (length Samples.until_blocked + work s <= work Samples.worker_and_renderer)%nat.
Proof.
  eexists. split; [vm_compute; reflexivity|].
  apply (run_bounded Samples.ready). vm_compute. reflexivity.
Defined.

Lemma calls_return_witness :
  exists s,
    run Samples.ready Samples.until_blocked Samples.worker_and_renderer = Some s /\
    exists sched s',
      run Samples.ready sched s = Some s' /\
      Forall (fun th => finished th = true) (threads s') /\
      (length sched <= work s)%nat.
Proof.
  blocked_state.
  exact (calls_return Samples.ready Samples.worker_and_renderer _
           worker_and_renderer_quiescent Hr).
Defined.

(** Both calls have returned (the producer deferred the request): the
    registry is empty again and nobody holds a mutex. *)
Lemma returned_released_witness :
  exists s,
    run Samples.deferring Samples.deferred_schedule Samples.worker_and_renderer
      = Some s /\
    threads s = [Caching 9 C_done QImage_null; Drawing 9 1%Q D_done] /\
    cachingFramesMutices (handler s) = ∅ /\
    (forall m, owner s m = None).
Proof.
  eexists. split; [vm_compute; reflexivity|]. split; [reflexivity|].
  match goal with
  | |- cachingFramesMutices (handler ?s) = _ /\ _ =>
      apply (returned_released Samples.deferring Samples.worker_and_renderer s
               worker_and_renderer_quiescent)
  end.
  - apply (run_reachable Samples.deferring Samples.deferred_schedule
             Samples.worker_and_renderer Samples.worker_and_renderer _
             (reachable_init _ _)).
    vm_compute. reflexivity.
  - repeat constructor.
Defined.

(** The renderer stands at the mutex of frame 9, which thread 0 holds. *)
Lemma blocked_by_holder_witness :
  exists s,
    run Samples.ready Samples.until_blocked Samples.worker_and_renderer = Some s /\
    step Samples.ready 1%nat s = None /\
    exists m u thu,
      wants (Drawing 9 1%Q D_wait_lock) = Some m /\ u <> 1%nat /\
      threads s !! u = Some thu /\
      (holds m thu = true \/
       exists i, m = frameMutex i /\ latched thu = Some i).
Proof.
  blocked_state. split; [reflexivity|].
  apply (proj1 (blocked_by_holder Samples.ready Samples.worker_and_renderer _
                  1%nat (Drawing 9 1%Q D_wait_lock)
                  worker_and_renderer_quiescent Hr eq_refl eq_refl)).
  reflexivity.
Defined.

(** C4.  Two workers cache frame 9 with a producer that stamps every
    decode.  Thread 0 has frame 9 in the registry, its mutex locked, and
    is about to ask the producer when thread 1 is called: frame 9 is in
    flight.  Thread 1 looks into the cache (line 162) and finds nothing;
    thread 0 then runs to the end of its call, so the frame is cached and
    out of the registry when thread 1 comes to look into the registry
    (line 171).  Thread 1 decodes the frame again: a second
    [signalRequestFrame(9, true)] goes out and the entry of the cache is
    replaced by the image of the second decode. *)
Theorem cacheFrame_duplicate_decode :
  exists s1 s2 s3,
    run Samples.stamping Samples.until_in_flight Samples.two_workers = Some s1 /\
    threads s1 = [Caching 9 C_request QImage_null;
                  Caching 9 C_isInCache_lock QImage_null] /\
    cachingFramesMutices (handler s1) !! 9 = Some (Some 0%nat) /\
    imageCache (handler s1) !! 9 = None /\
    run Samples.stamping Samples.after_the_probe s1 = Some s2 /\
    threads s2 = [Caching 9 C_done (QImage_raster 2 1 [9; 0]);
                  Caching 9 C_registry_lock QImage_null] /\
    imageCache (handler s2) !! 9 = Some (QImage_raster 2 1 [9; 0]) /\
    cachingFramesMutices (handler s2) !! 9 = None /\
    run Samples.stamping Samples.to_the_end s2 = Some s3 /\
    threads s3 = [Caching 9 C_done (QImage_raster 2 1 [9; 0]);
                  Caching 9 C_done (QImage_raster 2 1 [9; 1])] /\
    imageCache (handler s3) !! 9 = Some (QImage_raster 2 1 [9; 1]) /\
    count (is_emit (signalRequestFrame 9 true)) (trace (handler s3)) = 2%nat /\
    producer (handler s3) = 2%nat.
Proof.
  eexists _, _, _.
  repeat (split; [vm_compute; reflexivity|]). vm_compute. reflexivity.
Qed.

(** The same window on the side of the renderer.  Thread 0 has frame 9
    in flight when the renderer is called for frame 9 and looks into the
    cache (line 74).  Thread 0 then runs to the end of its call and thread
    2 caches frame 8.  When the renderer comes to the registry (line 78),
    frame 9 is no longer there: it does not wait, and although frame 9 is
    in the cache it asks the producer itself. *)
Lemma renderer_skips_wait :
  exists s1 s2,
    run Samples.ready Samples.past_the_probe Samples.three_threads = Some s1 /\
    threads s1 = [Caching 9 C_request QImage_null; Drawing 9 1%Q D_registry_lock;
                  Caching 8 C_isInCache_lock QImage_null] /\
    cachingFramesMutices (handler s1) !! 9 = Some (Some 0%nat) /\
    run Samples.ready Samples.renderer_last s1 = Some s2 /\
    Forall (fun th => finished th = true) (threads s2) /\
    is_Some (imageCache (handler s2) !! 9) /\
    count (is_emit (signalRequestFrame 9 true)) (trace (handler s2)) = 1%nat /\
    count (is_emit (signalRequestFrame 9 false)) (trace (handler s2)) = 1%nat /\
    count (is_emit (signalRequestFrame 9 false)) (trace (handler s1)) = 0%nat.
Proof.
  eexists _, _.
  do 4 (split; [vm_compute; reflexivity|]).
  split; [repeat constructor|].
  split; [vm_compute; eauto|].
  repeat (split; [vm_compute; reflexivity|]). vm_compute. reflexivity.
Qed.
